(** * Minimax search for Connect Four (agents.py): a shallow embedding

    The development follows agents.py: the search tree node [MinimaxNode],
    the depth-limited search [minimax], the three evaluation functions
    [zero_heur], [three_line_heur] and [my_heuristic], and the move
    selection of [MinimaxPlayer.play].

    Python values are modelled as the code uses them: integers as [Z],
    float('inf') and float('-inf') as two extra points of [number], strings
    as [string], lists as [list] with Python indexing, the successor dict as
    an insertion-ordered association list, and raised exceptions as the
    [Raise] branch of [result]. *)

From Stdlib Require Import ZArith List Bool Lia.
From stdpp Require Import base list strings.

Set Warnings "-register-all".

Open Scope Z_scope.

(** ** Python prelude *)

Module Py.

(** The exceptions the modelled code can raise. [RecursionError] is what the
    interpreter raises when the call stack is exhausted; the model raises it
    when the recursion fuel is used up. *)
Inductive exn : Type :=
  | RecursionError
  | IndexError
  | KeyError
  | ValueError.

Inductive result (A : Type) : Type :=
  | Ok (a : A)
  | Raise (e : exn).

Arguments Ok {A} a.
Arguments Raise {A} e.

Definition bind {A B : Type} (m : result A) (k : A -> result B) : result B :=
  match m with
  | Ok a => k a
  | Raise e => Raise e
  end.

(** Numbers met by the search: Python ints and the two float infinities. *)
Inductive number : Type :=
  | NegInf
  | Num (z : Z)
  | PosInf.

(** [a < b] on numbers. *)
Definition num_ltb (a b : number) : bool :=
  match a, b with
  | NegInf, NegInf => false
  | NegInf, _ => true
  | Num _, NegInf => false
  | Num x, Num y => x <? y
  | Num _, PosInf => true
  | PosInf, _ => false
  end.

(** [a == b] on numbers. *)
Definition num_eqb (a b : number) : bool :=
  match a, b with
  | NegInf, NegInf => true
  | Num x, Num y => x =? y
  | PosInf, PosInf => true
  | _, _ => false
  end.

(** [max(a, b)]: the first argument unless the second is strictly greater. *)
Definition py_max (a b : number) : number := if num_ltb a b then b else a.

(** [min(a, b)]: the first argument unless the second is strictly smaller. *)
Definition py_min (a b : number) : number := if num_ltb b a then b else a.

(** [len(l)]. *)
Definition len {A : Type} (l : list A) : Z := Z.of_nat (length l).

(** [l[k]]: negative indices count from the end, anything outside
    [-len(l) .. len(l)-1] raises IndexError. *)
Definition py_index {A : Type} (l : list A) (k : Z) : result A :=
  let k' := if k <? 0 then k + len l else k in
  if (0 <=? k') && (k' <? len l) then
    match nth_error l (Z.to_nat k') with
    | Some x => Ok x
    | None => Raise IndexError
    end
  else Raise IndexError.

(** [range(a, b)] and [range(n)]. *)
Definition py_range2 (a b : Z) : list Z :=
  map (fun k => a + Z.of_nat k) (seq 0 (Z.to_nat (b - a))).

Definition py_range (n : Z) : list Z := py_range2 0 n.

(** A dict with integer keys, in insertion order. *)
Definition dict (V : Type) : Type := list (Z * V).

Definition dict_keys {V : Type} (d : dict V) : list Z := map fst d.

(** [d[k]], raising KeyError for a missing key. *)
Fixpoint dict_get {V : Type} (d : dict V) (k : Z) : result V :=
  match d with
  | [] => Raise KeyError
  | (k', v) :: d' => if k' =? k then Ok v else dict_get d' k
  end.

(** [d[k] = v]: an existing key keeps its place, a new key goes last. *)
Fixpoint dict_set {V : Type} (d : dict V) (k : Z) (v : V) : dict V :=
  match d with
  | [] => [(k, v)]
  | (k', v') :: d' =>
      if k' =? k then (k', v) :: d' else (k', v') :: dict_set d' k v
  end.

(** A [for] loop whose body may raise: the loop state is threaded through. *)
Fixpoint for_each {A S : Type} (l : list A) (s : S)
    (body : S -> A -> result S) : result S :=
  match l with
  | [] => Ok s
  | x :: l' => bind (body s x) (fun s' => for_each l' s' body)
  end.

(** A [for] loop with [break]. *)
Inductive flow (S : Type) : Type :=
  | Continue (s : S)
  | Break (s : S).

Arguments Continue {S} s.
Arguments Break {S} s.

Fixpoint for_each_break {A S : Type} (l : list A) (s : S)
    (body : S -> A -> result (flow S)) : result S :=
  match l with
  | [] => Ok s
  | x :: l' =>
      bind (body s x) (fun f =>
        match f with
        | Continue s' => for_each_break l' s' body
        | Break s' => Ok s'
        end)
  end.

(** [random.randint(a, b)]: an integer of [a .. b] chosen by the generator,
    whose draw is the argument [entropy]; an empty range raises ValueError. *)
Definition randint (a b : Z) (entropy : Z) : result Z :=
  if b <? a then Raise ValueError
  else Ok (a + entropy mod (b - a + 1)).

End Py.

Export Py.

Notation "'let*' x := m 'in' k" := (bind m (fun x => k))
  (at level 10, x pattern, m at level 100, k at level 200, only parsing).

(** ** The position abstraction (connect_four.State) *)

(** The attributes of a [State] object that agents.py reads.  The board is
    indexed [board[col][row]]; a cell holds '.', 'x' or 'o'. *)
Record State : Type := mkState {
  board : list (list string);
  num_cols : Z;
  num_rows : Z;
  turn : string;
  is_terminal : bool;
  winner : string
}.

(** The two methods of [State] that the search calls.  They belong to the
    module connect_four, which the search treats as a collaborator:
    [get_legal_moves] lists the playable columns, and [advance_state s m] is
    the value of the object after [s.advance_state(m)]. *)
Class Rules : Type := {
  get_legal_moves : State -> list Z;
  advance_state : State -> Z -> State
}.

(** [copy.deepcopy] of a state: an equal value (and, on the store model
    below, a new object). *)
Definition deepcopy (s : State) : State := s.

(** Modelled from the spec: [State.coords_legal] is defined in connect_four,
    which section 6 describes as the bounds predicate of the direction
    scanning heuristics: the cell lies on the board. *)
Definition coords_legal (state : State) (col row : Z) : bool :=
  (0 <=? col) && (col <? num_cols state) &&
  (0 <=? row) && (row <? num_rows state).

(** [state.board[i][j]]. *)
Definition board_at (state : State) (i j : Z) : result string :=
  let* column := py_index (board state) i in
  py_index column j.

(** ** The search tree *)

Inductive MinimaxNode : Type :=
  mkNode (state : State) (value : number)
         (successors : dict MinimaxNode).

Definition state (n : MinimaxNode) : State :=
  match n with mkNode s _ _ => s end.

Definition value (n : MinimaxNode) : number :=
  match n with mkNode _ v _ => v end.

Definition successors (n : MinimaxNode) : dict MinimaxNode :=
  match n with mkNode _ _ d => d end.

(** [MinimaxNode(state)]. *)
Definition MinimaxNode_init (state : State) : MinimaxNode :=
  mkNode state (Num 0) [].

(** [node.value = v] and [node.successors[k] = c]. *)
Definition set_value (n : MinimaxNode) (v : number) : MinimaxNode :=
  mkNode (state n) v (successors n).

Definition set_successor (n : MinimaxNode) (k : Z) (c : MinimaxNode)
    : MinimaxNode :=
  mkNode (state n) (value n) (dict_set (successors n) k c).

(** ** minimax *)

Section Search.

Context `{Rules}.

(** The loop that fills [node.successors]. *)
Definition expand (node : MinimaxNode) : MinimaxNode :=
  let moves := get_legal_moves (state node) in
  fold_left (fun node move =>
      let state_cpy := deepcopy (state node) in
      let state_cpy := advance_state state_cpy move in
      set_successor node move (MinimaxNode_init state_cpy))
    moves node.

(** One of the two evaluation loops: [better] is [max] or [min].  The call
    on the child updates the child in place, which the model writes back
    under the same key. *)
Definition eval_successors
    (search : MinimaxNode -> result (MinimaxNode * number))
    (better : number -> number -> number) (node : MinimaxNode)
    : result MinimaxNode :=
  for_each (dict_keys (successors node)) node (fun node child =>
    let* c := dict_get (successors node) child in
    let* (c', v) := search c in
    Ok (set_value (set_successor node child c') (better (value node) v))).

(** [minimax(node, depth, max_role, heuristic_fn)] returns the updated node
    together with the returned value. *)
Fixpoint minimax (fuel : nat) (node : MinimaxNode) (depth : Z)
    (max_role : string) (heuristic_fn : State -> string -> result Z)
    : result (MinimaxNode * number) :=
  match fuel with
  | O => Raise RecursionError
  | S fuel' =>
      if (depth =? 0) || is_terminal (state node) then
        let* v := heuristic_fn (state node) max_role in
        let node := set_value node (Num v) in
        Ok (node, value node)
      else
        let node := expand node in
        if String.eqb (turn (state node)) max_role then
          let node := set_value node NegInf in
          let* node := eval_successors
                    (fun c => minimax fuel' c (depth - 1) max_role heuristic_fn)
                    py_max node in
          Ok (node, value node)
        else
          let node := set_value node PosInf in
          let* node := eval_successors
                    (fun c => minimax fuel' c (depth - 1) max_role heuristic_fn)
                    py_min node in
          Ok (node, value node)
  end.

End Search.

(** ** The heuristics *)

Definition col_dirs : list Z := [1; 1; 0; -1].
Definition row_dirs : list Z := [0; 1; 1; 1].

(** [three_line_heur(state, max_role)].  The three [while] loops count
    [i], [j] and [dir] upwards by one from 0, so they run over
    [range(num_cols)], [range(num_rows)] and [range(len(col_dirs))]. *)
Definition three_line_heur (state : State) (max_role : string)
    : result Z :=
  let result := 0 in
  if is_terminal state then
    if String.eqb (winner state) EmptyString then Ok 0
    else if String.eqb (winner state) max_role then Ok 100
    else Ok (-100)
  else
    for_each (py_range (num_cols state)) result (fun result i =>
      for_each (py_range (num_rows state)) result (fun result j =>
        let* here := board_at state i j in
        if negb (String.eqb here ".") then
          let* piece := board_at state i j in
          for_each (py_range (len col_dirs)) result (fun result dir =>
            let* dc := py_index col_dirs dir in
            let* dr := py_index row_dirs dir in
            let farthest_pnt := (i + 2 * dc, j + 2 * dr) in
            if coords_legal state (fst farthest_pnt) (snd farthest_pnt) then
              let* dc1 := py_index col_dirs dir in
              let* dr1 := py_index row_dirs dir in
              let* next := board_at state (i + dc1) (j + dr1) in
              if String.eqb piece next then
                let* far := board_at state (fst farthest_pnt)
                                           (snd farthest_pnt) in
                if String.eqb piece far then
                  if String.eqb piece max_role then Ok (result + 1)
                  else Ok (result - 1)
                else Ok result
              else Ok result
            else Ok result)
        else Ok result)).

(** [zero_heur(state, max_role)]. *)
Definition zero_heur (state : State) (max_role : string) : result Z :=
  if is_terminal state then
    if String.eqb (winner state) EmptyString then Ok 0
    else if String.eqb (winner state) max_role then Ok 100
    else Ok (-100)
  else Ok 0.

(** The inner loop of [my_heuristic] over [dist in range(1, 4)]: the loop
    state is the pair [(in_a_row, open_ends)]. *)
Definition scan_line (state : State) (piece : string) (i j dc dr : Z)
    : result (Z * Z) :=
  for_each_break (py_range2 1 4) (0, 0) (fun '(in_a_row, open_ends) dist =>
    let next_col := i + dist * dc in
    let next_row := j + dist * dr in
    if coords_legal state next_col next_row then
      let* c := board_at state next_col next_row in
      if String.eqb c piece then Ok (Continue (in_a_row + 1, open_ends))
      else
        let* c' := board_at state next_col next_row in
        if String.eqb c' "." then Ok (Break (in_a_row, open_ends + 1))
        else Ok (Break (in_a_row, open_ends))
    else Ok (Break (in_a_row, open_ends))).

(** The scoring at the end of the direction loop of [my_heuristic]. *)
Definition line_score (piece max_role : string) (in_a_row open_ends : Z)
    (result : Z) : Z :=
  if (in_a_row =? 1) && (open_ends >=? 1) then
    if String.eqb piece max_role then result + 5 else result - 5
  else if in_a_row =? 2 then
    if open_ends >=? 1 then
      if String.eqb piece max_role then result + 10 else result - 10
    else
      if String.eqb piece max_role then result + 7 else result - 7
  else if (in_a_row =? 0) && (open_ends =? 2) then
    if String.eqb piece max_role then result + 3 else result - 3
  else result.

(** [my_heuristic(state, max_role)]. *)
Definition my_heuristic (state : State) (max_role : string) : result Z :=
  let result := 0 in
  if is_terminal state then
    if String.eqb (winner state) EmptyString then Ok 0
    else if String.eqb (winner state) max_role then Ok 100
    else Ok (-100)
  else
    for_each (py_range (num_cols state)) result (fun result i =>
      for_each (py_range (num_rows state)) result (fun result j =>
        let* here := board_at state i j in
        if negb (String.eqb here ".") then
          let* piece := board_at state i j in
          let result :=
            if i =? num_cols state / 2 then
              if String.eqb piece max_role then result + 2 else result - 2
            else result in
          for_each (py_range (len col_dirs)) result (fun result dir =>
            let* dc := py_index col_dirs dir in
            let* dr := py_index row_dirs dir in
            let* (in_a_row, open_ends) := scan_line state piece i j dc dr in
            let opposite_col := i - dc in
            let opposite_row := j - dr in
            let* open_ends :=
              if coords_legal state opposite_col opposite_row then
                let* c := board_at state opposite_col opposite_row in
                if String.eqb c "." then Ok (open_ends + 1) else Ok open_ends
              else Ok open_ends in
            Ok (line_score piece max_role in_a_row open_ends result))
        else Ok result)).

(** ** MinimaxPlayer *)

Record MinimaxPlayer : Type := mkPlayer {
  role : string;
  depth : Z;
  heur : State -> string -> result Z;
  display : bool
}.

(** [MinimaxPlayer(depth, heur, display)] and [initialize(role)]. *)
Definition MinimaxPlayer_init (depth : Z)
    (heur : State -> string -> result Z) (display : bool) : MinimaxPlayer :=
  mkPlayer EmptyString depth heur display.

Definition initialize (self : MinimaxPlayer) (role : string)
    : MinimaxPlayer :=
  mkPlayer role (depth self) (heur self) (display self).

Section Player.

Context `{Rules}.

(** The scan of [play] over the root's successors that collects
    [best_moves]. *)
Definition scan_best (root : MinimaxNode) : result (list Z) :=
  for_each (dict_keys (successors root)) [] (fun best_moves move =>
    if len best_moves =? 0 then Ok [move]
    else
      let* c := dict_get (successors root) move in
      let* b0 := py_index best_moves 0 in
      let* cb := dict_get (successors root) b0 in
      if num_ltb (value cb) (value c) then Ok [move]
      else if num_eqb (value c) (value cb) then Ok (best_moves ++ [move])
      else Ok best_moves).

(** [MinimaxPlayer.play(state)].  [state.display()] only prints the board
    and is left out; [entropy] is the draw of the random generator. *)
Definition play (fuel : nat) (entropy : Z) (self : MinimaxPlayer)
    (state : State) : result Z :=
  let root := MinimaxNode_init state in
  let* (root, _) := minimax fuel root (depth self) (role self) (heur self) in
  let* best_moves := scan_best root in
  let* k := randint 0 (len best_moves - 1) entropy in
  py_index best_moves k.

End Player.

(** ** evaluate_position and the other players *)

Definition eval_directions : list (Z * Z) := [(1, 0); (0, 1); (1, 1); (1, -1)].

(** The loop of [evaluate_position] over [offset in range(-3, 4)] for one
    direction: the loop state is [potential_line]. *)
Definition scan_window (state : State) (col row : Z) (role : string)
    (d_col d_row : Z) : result Z :=
  for_each_break (py_range2 (-3) 4) 0 (fun potential_line offset =>
    let c := col + offset * d_col in
    let r := row + offset * d_row in
    if (0 <=? c) && (c <? num_cols state) &&
       (0 <=? r) && (r <? num_rows state) then
      let* here := board_at state c r in
      if String.eqb here role then Ok (Continue (potential_line + 1))
      else
        let* here' := board_at state c r in
        if negb (String.eqb here' ".") then Ok (Break 0)
        else Ok (Continue potential_line)
    else Ok (Continue potential_line)).

(** [evaluate_position(state, col, row, role)]. *)
Definition evaluate_position (state : State) (col row : Z) (role : string)
    : result Z :=
  let score := 0 in
  for_each eval_directions score (fun score '(d_col, d_row) =>
    let* potential_line := scan_window state col row role d_col d_row in
    if potential_line >=? 3 then Ok (score + 50) else Ok score).

Section OtherPlayers.

Context `{Rules}.

(** [FirstMovePlayer.play(state)], without the printing of the board. *)
Definition FirstMovePlayer_play (state : State) : result Z :=
  py_index (get_legal_moves state) 0.

(** [RandomPlayer.play(state)], without the printing of the board;
    [entropy] is the draw of the random generator. *)
Definition RandomPlayer_play (entropy : Z) (state : State) : result Z :=
  let moves := get_legal_moves state in
  let* k := randint 0 (len moves - 1) entropy in
  py_index moves k.

End OtherPlayers.

(** ** Connect Four *)

Module ConnectFour.

(** Modelled from the spec: the module connect_four (the class [State]
    with [get_legal_moves] and [advance_state]) is not part of agents.py.
    The spec describes it as follows: a move is a column index, legal
    while the column is not full; a piece dropped into a column takes the
    lowest empty cell; a position is terminal once a player has four marks in
    a line (that player is the winner) or the board is full (a draw, winner
    ''); the two roles alternate, 'x' first, on a board of 7 columns and 6
    rows. *)

Definition empty_board (cols rows : nat) : list (list string) :=
  repeat (repeat "."%string rows) cols.

Definition initial_state : State :=
  mkState (empty_board 7 6) 7 6 "x" false EmptyString.

(** The mark at [(col, row)], or the empty string off the board. *)
Definition mark (b : list (list string)) (col row : Z) : string :=
  if (0 <=? col) && (0 <=? row) then
    nth (Z.to_nat row) (nth (Z.to_nat col) b []) EmptyString
  else EmptyString.

Definition other_role (r : string) : string :=
  if String.eqb r "x" then "o"%string else "x"%string.

(** A column is playable while its top cell is empty. *)
Definition column_open (s : State) (col : Z) : bool :=
  String.eqb (mark (board s) col (num_rows s - 1)) ".".

Definition legal_moves (s : State) : list Z :=
  List.filter (column_open s) (py_range (num_cols s)).

(** The piece falls to the lowest empty cell of the column. *)
Fixpoint drop (column : list string) (piece : string) : list string :=
  match column with
  | [] => []
  | c :: rest =>
      if String.eqb c "." then piece :: rest else c :: drop rest piece
  end.

Fixpoint drop_in (b : list (list string)) (col : nat) (piece : string)
    : list (list string) :=
  match b, col with
  | [], _ => []
  | column :: rest, O => drop column piece :: rest
  | column :: rest, S col' => column :: drop_in rest col' piece
  end.

Definition four_from (b : list (list string)) (piece : string)
    (col row dc dr : Z) : bool :=
  forallb (fun k => String.eqb (mark b (col + k * dc) (row + k * dr)) piece)
          [0; 1; 2; 3].

Definition has_four (b : list (list string)) (cols rows : Z)
    (piece : string) : bool :=
  existsb (fun col =>
    existsb (fun row =>
      existsb (fun d => four_from b piece col row (fst d) (snd d))
              [(1, 0); (1, 1); (0, 1); (-1, 1)])
      (py_range rows))
    (py_range cols).

Definition board_full (b : list (list string)) : bool :=
  forallb (forallb (fun c => negb (String.eqb c "."))) b.

(** The state after the player to move drops a piece into column [move];
    a move that is not legal leaves the state as it is. *)
Definition advance (s : State) (move : Z) : State :=
  if negb (is_terminal s) && existsb (Z.eqb move) (legal_moves s) then
    let piece := turn s in
    let b := drop_in (board s) (Z.to_nat move) piece in
    let won := has_four b (num_cols s) (num_rows s) piece in
    mkState b (num_cols s) (num_rows s) (other_role piece)
            (won || board_full b) (if won then piece else EmptyString)
  else s.

#[export] Instance rules : Rules :=
  {| get_legal_moves := legal_moves; advance_state := advance |}.

(** The position reached from the empty board by a sequence of moves. *)
Definition after_moves (moves : list Z) : State :=
  fold_left advance moves initial_state.

(** Positions used as examples.  'x' has won with four in column 0. *)
Definition won_by_x : State := after_moves [0; 1; 0; 1; 0; 1; 0].

(** 'x' holds columns 4, 5 and 6 of the bottom row; 'o' is to move. *)
Definition three_at_edge : State := after_moves [4; 0; 5; 0; 6].

(** A position after 31 moves, 'o' to move, with no win on the board and
    none available to either side in one move. *)
Definition crowded : State :=
  after_moves [3; 0; 3; 6; 2; 0; 3; 1; 4; 5; 4; 6; 4; 2; 0; 6; 6; 4; 2; 0;
               4; 3; 2; 6; 3; 6; 3; 0; 2; 2; 4].

(** A position after 40 moves with two empty cells left, 'x' to move. *)
Definition nearly_full : State :=
  after_moves [3; 0; 3; 0; 4; 4; 0; 6; 1; 5; 3; 2; 6; 1; 4; 5; 6; 0; 0; 2;
               4; 0; 2; 1; 6; 3; 4; 5; 3; 1; 2; 2; 2; 4; 5; 6; 1; 1; 5; 5].

(** 'x' to move can complete the bottom row with column 3; 'o' has three
    in column 0. *)
Definition x_to_win : State := after_moves [4; 0; 5; 0; 6; 0].

(** A board without columns: not terminal, and no move to play. *)
Definition no_columns : State := mkState [] 0 6 "x" false EmptyString.

End ConnectFour.

(** ** The search on a store of state objects

    In Python a [State] is an object: [node.state] refers to the object the
    caller passed in, [deepcopy] allocates a new one, and [advance_state]
    changes the object it is called on.  This second model of [minimax]
    keeps the state objects in a store and lets nodes hold references, so
    that it shows which objects a call writes to. *)

Module Store.

Abbreviation loc := nat (only parsing).

(** The allocated state objects; a reference is an index. *)
Abbreviation store := (list State) (only parsing).

(** Reading through a reference.  Python has no reference to nothing; the
    model reports one as KeyError. *)
Definition read (st : store) (l : loc) : result State :=
  match st !! l with
  | Some s => Ok s
  | None => Raise KeyError
  end.

(** [deepcopy(obj)]: a new object with the same contents. *)
Definition deepcopy_at (st : store) (l : loc) : result (store * loc) :=
  let* s := read st l in
  Ok (st ++ [s], length st).

Inductive RNode : Type :=
  mkRNode (state_ref : loc) (rvalue : number) (rsuccessors : dict RNode).

Definition state_ref (n : RNode) : loc :=
  match n with mkRNode l _ _ => l end.

Definition rvalue (n : RNode) : number :=
  match n with mkRNode _ v _ => v end.

Definition rsuccessors (n : RNode) : dict RNode :=
  match n with mkRNode _ _ d => d end.

Definition RNode_init (l : loc) : RNode := mkRNode l (Num 0) [].

Definition rset_value (n : RNode) (v : number) : RNode :=
  mkRNode (state_ref n) v (rsuccessors n).

Definition rset_successor (n : RNode) (k : Z) (c : RNode) : RNode :=
  mkRNode (state_ref n) (rvalue n) (dict_set (rsuccessors n) k c).

Section Search.

Context `{Rules}.

(** [obj.advance_state(move)]: the object at [l] is overwritten. *)
Definition advance_state_at (st : store) (l : loc) (move : Z)
    : result store :=
  let* s := read st l in
  Ok (<[l := advance_state s move]> st).

Definition expand_at (st : store) (node : RNode) : result (store * RNode) :=
  let* s := read st (state_ref node) in
  let moves := get_legal_moves s in
  for_each moves (st, node) (fun '(st, node) move =>
    let* (st, state_cpy) := deepcopy_at st (state_ref node) in
    let* st := advance_state_at st state_cpy move in
    Ok (st, rset_successor node move (RNode_init state_cpy))).

Definition eval_successors_at
    (search : store -> RNode -> result (store * RNode * number))
    (better : number -> number -> number) (st : store) (node : RNode)
    : result (store * RNode) :=
  for_each (dict_keys (rsuccessors node)) (st, node)
    (fun '(st, node) child =>
      let* c := dict_get (rsuccessors node) child in
      let* (st, c', v) := search st c in
      Ok (st, rset_value (rset_successor node child c')
                         (better (rvalue node) v))).

Fixpoint minimax_at (fuel : nat) (st : store) (node : RNode) (depth : Z)
    (max_role : string) (heuristic_fn : State -> string -> result Z)
    : result (store * RNode * number) :=
  match fuel with
  | O => Raise RecursionError
  | S fuel' =>
      let* s := read st (state_ref node) in
      if (depth =? 0) || is_terminal s then
        let* v := heuristic_fn s max_role in
        let node := rset_value node (Num v) in
        Ok (st, node, rvalue node)
      else
        let* (st, node) := expand_at st node in
        let* s := read st (state_ref node) in
        if String.eqb (turn s) max_role then
          let node := rset_value node NegInf in
          let* (st, node) :=
            eval_successors_at
              (fun st c => minimax_at fuel' st c (depth - 1) max_role
                                      heuristic_fn)
              py_max st node in
          Ok (st, node, rvalue node)
        else
          let node := rset_value node PosInf in
          let* (st, node) :=
            eval_successors_at
              (fun st c => minimax_at fuel' st c (depth - 1) max_role
                                      heuristic_fn)
              py_min st node in
          Ok (st, node, rvalue node)
  end.

End Search.

(** The successors of a node evaluated one after the other, the store
    threaded through the calls. *)
Fixpoint eval_list_at
    (search : store -> RNode -> result (store * RNode * number))
    (st : store) (d : dict RNode)
    : result (store * list (Z * RNode * number)) :=
  match d with
  | [] => Ok (st, [])
  | (k, c) :: rest =>
      let* (st1, c', v) := search st c in
      let* (st2, rs) := eval_list_at search st1 rest in
      Ok (st2, (k, c', v) :: rs)
  end.

Section Represents.

Context `{Rules}.

(** A successor entry of a freshly expanded node: a new node on a state
    object that holds the state after the move. *)
Definition fresh_in (st : store) (s : State) (m : Z) (rc : Z * RNode)
    : Prop :=
  fst rc = m /\
  exists lm, snd rc = RNode_init lm /\ st !! lm = Some (advance_state s m).

End Represents.

(** The tree of values a tree of references stands for in a store. *)
Fixpoint reify (st : store) (n : RNode) : option MinimaxNode :=
  match n with
  | mkRNode l v d =>
      s ← st !! l;
      d' ← (fix go (d : dict RNode) : option (dict MinimaxNode) :=
              match d with
              | [] => Some []
              | (k, c) :: rest =>
                  c' ← reify st c;
                  rest' ← go rest;
                  Some ((k, c') :: rest')
              end) d;
      Some (mkNode s v d')
  end.

(** The state objects that the nodes below the root of a tree refer to. *)
Fixpoint rrefs (n : RNode) : list loc :=
  match n with
  | mkRNode _ _ d =>
      (fix go (d : dict RNode) : list loc :=
         match d with
         | [] => []
         | (_, c) :: rest => (state_ref c :: rrefs c) ++ go rest
         end) d
  end.

(** The successors of an expanded node are new nodes on distinct state
    objects allocated since the store was [st0]. *)
Definition new_objects (st0 st : store) (rd : dict RNode) : Prop :=
  (length st0 <= length st)%nat /\
  Forall (fun kc => exists lk, snd kc = RNode_init lk /\
                               (length st0 <= lk < length st)%nat) rd /\
  List.NoDup (map (fun kc => state_ref (snd kc)) rd).

(** What one call contributes: the node keeps its state object, the store
    grows, and the objects below the node are distinct and new. *)
Definition allocates (st : store) (c : RNode) (st' : store) (c' : RNode)
    : Prop :=
  state_ref c' = state_ref c /\ (length st <= length st')%nat /\
  List.NoDup (rrefs c') /\
  Forall (fun r => (length st <= r < length st')%nat) (rrefs c').

(** The store has only grown and the node still refers to its state
    object. *)
Definition extends (a b : store * RNode) : Prop :=
  (exists ext, fst b = fst a ++ ext) /\
  state_ref (snd b) = state_ref (snd a).

(** An evaluated successor on the store stands for the one on values. *)
Definition same_result (st : store) (r : Z * MinimaxNode * number)
    (rr : Z * RNode * number) : Prop :=
  fst (fst rr) = fst (fst r) /\ snd rr = snd r /\
  reify st (snd (fst rr)) = Some (snd (fst r)).

End Store.

(** ** Reference definitions used by the statements *)

(** [a <= b] on numbers. *)
Definition num_leb (a b : number) : bool := negb (num_ltb b a).

(** [v] is the greatest element of [vs]; for no element at all it is the
    start value float('-inf') of the maximizing loop. *)
Definition is_max_of (v : number) (vs : list number) : Prop :=
  Forall (fun x => num_leb x v = true) vs /\
  (vs = [] -> v = NegInf) /\ (vs <> [] -> In v vs).

(** [v] is the least element of [vs], or float('inf') for no element. *)
Definition is_min_of (v : number) (vs : list number) : Prop :=
  Forall (fun x => num_leb v x = true) vs /\
  (vs = [] -> v = PosInf) /\ (vs <> [] -> In v vs).

(** The values stored in the children of a node. *)
Definition child_values (n : MinimaxNode) : list number :=
  map (fun kc => value (snd kc)) (successors n).

(** The children of a list of successors evaluated one after the other. *)
Fixpoint eval_list (search : MinimaxNode -> result (MinimaxNode * number))
    (d : dict MinimaxNode) : result (list (Z * MinimaxNode * number)) :=
  match d with
  | [] => Ok []
  | (k, c) :: rest =>
      let* (c', v) := search c in
      let* rs := eval_list search rest in
      Ok ((k, c', v) :: rs)
  end.

(** The keys of a dict filled from a list of moves: each move once, at its
    first place. *)
Definition uniq (moves : list Z) : list Z :=
  fold_left (fun seen m => if existsb (Z.eqb m) seen then seen
                           else seen ++ [m]) moves [].

(** A predicate holds at every node of a tree. *)
Fixpoint all_nodes (p : MinimaxNode -> bool) (n : MinimaxNode) : bool :=
  p n &&
  match n with
  | mkNode _ _ d =>
      (fix go (d : dict MinimaxNode) : bool :=
         match d with
         | [] => true
         | (_, c) :: rest => all_nodes p c && go rest
         end) d
  end.

Section Reference.

Context `{Rules}.

(** The successors of a freshly expanded node. *)
Definition fresh_children (s : State) : dict MinimaxNode :=
  map (fun m => (m, MinimaxNode_init (advance_state s m)))
      (uniq (get_legal_moves s)).

(** The tree a complete search of [n] plies builds, for a heuristic that
    does not raise. *)
Fixpoint search_tree (h : State -> string -> Z) (max_role : string)
    (n : nat) (s : State) : MinimaxNode :=
  match n with
  | O => mkNode s (Num (h s max_role)) []
  | S n' =>
      if is_terminal s then mkNode s (Num (h s max_role)) []
      else
        let kids := map (fun m => (m, search_tree h max_role n'
                                        (advance_state s m)))
                        (uniq (get_legal_moves s)) in
        let vals := map (fun kc => value (snd kc)) kids in
        mkNode s (if String.eqb (turn s) max_role
                  then fold_left py_max vals NegInf
                  else fold_left py_min vals PosInf) kids
  end.

(** [p] holds at every state the search meets from [s] in [n] plies. *)
Fixpoint within (p : State -> bool) (n : nat) (s : State) : bool :=
  p s &&
  match n with
  | O => true
  | S n' =>
      is_terminal s ||
      forallb (fun m => within p n' (advance_state s m)) (get_legal_moves s)
  end.

(** Every line of play from [s] reaches a terminal state in at most [n]
    plies. *)
Fixpoint ends_within (n : nat) (s : State) : bool :=
  is_terminal s ||
  match n with
  | O => false
  | S n' =>
      forallb (fun m => ends_within n' (advance_state s m))
              (get_legal_moves s)
  end.

(** The contract of the position abstraction: a state that is not terminal
    has a legal move. *)
Definition can_move (s : State) : bool :=
  is_terminal s ||
  match get_legal_moves s with [] => false | _ :: _ => true end.

Definition not_terminal (s : State) : bool := negb (is_terminal s).

End Reference.

(** A board of [cols] columns of [rows] cells each. *)
Definition well_formed (cols rows : Z) (s : State) : bool :=
  (num_cols s =? cols) && (num_rows s =? rows) &&
  (len (board s) =? cols) &&
  forallb (fun column => len column =? rows) (board s).

(** The mark at a cell of a well-formed board. *)
Definition mark_at (s : State) (i j : Z) : string :=
  nth (Z.to_nat j) (nth (Z.to_nat i) (board s) []) EmptyString.

(** The line directions of the heuristics, as (column step, row step). *)
Definition directions : list (Z * Z) := combine col_dirs row_dirs.

(** The cells of the board paired with the directions, in scan order. *)
Definition line_starts (s : State) : list (Z * Z * (Z * Z)) :=
  flat_map (fun i =>
    flat_map (fun j => map (fun d => (i, j, d)) directions)
             (py_range (num_rows s)))
    (py_range (num_cols s)).

(** Three equal marks in a line from an occupied cell, the third of them on
    the board: what [three_line_heur] counts. *)
Definition three_line (s : State) (w : Z * Z * (Z * Z)) : bool :=
  let '(i, j, (dc, dr)) := w in
  negb (String.eqb (mark_at s i j) ".") &&
  coords_legal s (i + 2 * dc) (j + 2 * dr) &&
  String.eqb (mark_at s i j) (mark_at s (i + dc) (j + dr)) &&
  String.eqb (mark_at s i j) (mark_at s (i + 2 * dc) (j + 2 * dr)).

Definition owned_by (s : State) (r : string) (w : Z * Z * (Z * Z)) : bool :=
  String.eqb (mark_at s (fst (fst w)) (snd (fst w))) r.

(** The signed count of three-in-a-lines. *)
Definition three_line_count (s : State) (max_role : string) : Z :=
  len (List.filter (fun w => three_line s w && owned_by s max_role w)
                   (line_starts s))
  - len (List.filter (fun w => three_line s w && negb (owned_by s max_role w))
                     (line_starts s)).

(** The count as the specification words it: the run of three must have a
    fourth cell on the board beyond it, and it is exact when that fourth
    cell does not continue the run. *)
Definition three_line_claimed (exact : bool) (s : State)
    (w : Z * Z * (Z * Z)) : bool :=
  let '(i, j, (dc, dr)) := w in
  negb (String.eqb (mark_at s i j) ".") &&
  coords_legal s (i + 3 * dc) (j + 3 * dr) &&
  String.eqb (mark_at s i j) (mark_at s (i + dc) (j + dr)) &&
  String.eqb (mark_at s i j) (mark_at s (i + 2 * dc) (j + 2 * dr)) &&
  (negb exact ||
   negb (String.eqb (mark_at s i j) (mark_at s (i + 3 * dc) (j + 3 * dr)))).

Definition three_line_count_claimed (exact : bool) (s : State)
    (max_role : string) : Z :=
  len (List.filter (fun w => three_line_claimed exact s w
                             && owned_by s max_role w) (line_starts s))
  - len (List.filter (fun w => three_line_claimed exact s w
                               && negb (owned_by s max_role w))
                     (line_starts s)).

(** What one cell and direction adds to the result of [three_line_heur]. *)
Definition three_line_term (s : State) (max_role : string)
    (w : Z * Z * (Z * Z)) : Z :=
  if three_line s w then (if owned_by s max_role w then 1 else -1) else 0.

Definition zsum (l : list Z) : Z := fold_right Z.add 0 l.

(** The value of a node lies in [lo .. hi]. *)
Definition value_in (lo hi : Z) (n : MinimaxNode) : bool :=
  match value n with
  | Num z => (lo <=? z) && (z <=? hi)
  | _ => false
  end.

(** The step of the scan of [play] on the scores of the moves, and the
    moves it keeps. *)
Definition keep_best (score : Z -> number) (best_moves : list Z) (move : Z)
    : list Z :=
  match best_moves with
  | [] => [move]
  | b0 :: _ =>
      if num_ltb (score b0) (score move) then [move]
      else if num_eqb (score move) (score b0) then best_moves ++ [move]
      else best_moves
  end.

(** What the scan has kept after the moves [seen]: nothing before the first
    move, afterwards the moves of greatest score. *)
Definition kept_best (score : Z -> number) (seen best : list Z) : Prop :=
  (seen = [] /\ best = []) \/
  (best <> [] /\ exists v,
     Forall (fun k => num_leb (score k) v = true) seen /\
     forall k, In k best <-> In k seen /\ score k = v).

(** The value stored under a move in the successors of a node. *)
Definition score_of (n : MinimaxNode) (move : Z) : number :=
  match dict_get (successors n) move with
  | Ok c => value c
  | Raise _ => NegInf
  end.

(** The value of classical minimax: the heuristic at depth 0 and at terminal
    states, otherwise the greatest (maximizing role to move) or least value
    over the legal moves, one ply less deep. *)
Fixpoint minimax_value `{Rules} (h : State -> string -> Z)
    (max_role : string) (n : nat) (s : State) : number :=
  match n with
  | O => Num (h s max_role)
  | S n' =>
      if is_terminal s then Num (h s max_role)
      else
        let vals := map (fun m => minimax_value h max_role n'
                                    (advance_state s m))
                        (get_legal_moves s) in
        if String.eqb (turn s) max_role
        then fold_left py_max vals NegInf
        else fold_left py_min vals PosInf
  end.

(** Every cell of the board holds '.', 'x' or 'o'. *)
Definition marks_ok (s : State) : bool :=
  forallb (forallb (fun c => String.eqb c "." || String.eqb c "x"
                             || String.eqb c "o")) (board s).

(** The score [my_heuristic] gives a line by its run length and its open
    ends, before the sign. *)
Definition line_weight (in_a_row open_ends : Z) : Z :=
  if (in_a_row =? 1) && (open_ends >=? 1) then 5
  else if in_a_row =? 2 then (if open_ends >=? 1 then 10 else 7)
  else if (in_a_row =? 0) && (open_ends =? 2) then 3
  else 0.

(** The cells of the window of [evaluate_position] in one direction that lie
    on the board. *)
Definition window_cells (s : State) (col row d_col d_row : Z)
    : list (Z * Z) :=
  List.filter (fun cr => coords_legal s (fst cr) (snd cr))
    (map (fun offset => (col + offset * d_col, row + offset * d_row))
         (py_range2 (-3) 4)).

(** A window counts for [role]: no mark of another player in it and at
    least three marks of [role]. *)
Definition window_counts (s : State) (col row : Z) (role : string)
    (d : Z * Z) : bool :=
  let cells := window_cells s col row (fst d) (snd d) in
  negb (existsb (fun cr =>
          negb (String.eqb (mark_at s (fst cr) (snd cr)) role) &&
          negb (String.eqb (mark_at s (fst cr) (snd cr)) ".")) cells) &&
  (3 <=? len (List.filter (fun cr =>
                 String.eqb (mark_at s (fst cr) (snd cr)) role) cells)).

(** The opposite of a number. *)
Definition num_opp (a : number) : number :=
  match a with
  | NegInf => PosInf
  | Num z => Num (- z)
  | PosInf => NegInf
  end.

(** It is the turn of 'x' or of 'o'. *)
Definition turn_ok (s : State) : bool :=
  String.eqb (turn s) "x" || String.eqb (turn s) "o".

(** * Properties *)

(** ** Numbers *)

Lemma num_leb_refl (a : number) : num_leb a a = true.
Proof. destruct a; unfold num_leb; simpl; auto. rewrite Z.ltb_irrefl. auto. Qed.

Lemma num_leb_trans (a b c : number) :
  num_leb a b = true -> num_leb b c = true -> num_leb a c = true.
Proof.
  unfold num_leb. destruct a, b, c; simpl; try discriminate; auto.
  rewrite !negb_true_iff, !Z.ltb_ge. lia.
Qed.

Lemma num_leb_antisym (a b : number) :
  num_leb a b = true -> num_leb b a = true -> a = b.
Proof.
  unfold num_leb. destruct a, b; simpl; try discriminate; auto.
  rewrite !negb_true_iff, !Z.ltb_ge. intros. f_equal. lia.
Qed.

Lemma num_ltb_leb (a b : number) : num_ltb a b = true -> num_leb a b = true.
Proof.
  unfold num_leb. destruct a, b; simpl; try discriminate; auto.
  rewrite negb_true_iff, Z.ltb_lt, Z.ltb_ge. lia.
Qed.

Lemma num_eqb_eq (a b : number) : num_eqb a b = true <-> a = b.
Proof.
  destruct a, b; simpl; split; try discriminate; auto.
  - rewrite Z.eqb_eq. congruence.
  - intros [= ->]. apply Z.eqb_refl.
Qed.

Lemma py_max_cases (a b : number) :
  (py_max a b = a /\ num_leb b a = true) \/
  (py_max a b = b /\ num_leb a b = true).
Proof.
  unfold py_max, num_leb. destruct (num_ltb a b) eqn:E.
  - right. split; auto. apply num_ltb_leb in E. exact E.
  - left. auto.
Qed.

Lemma py_min_cases (a b : number) :
  (py_min a b = a /\ num_leb a b = true) \/
  (py_min a b = b /\ num_leb b a = true).
Proof.
  unfold py_min, num_leb. destruct (num_ltb b a) eqn:E.
  - right. split; auto. apply num_ltb_leb in E. exact E.
  - left. auto.
Qed.

(** The running maximum of a loop: at least the start value and every
    element, and one of them. *)
Lemma fold_max_spec (vs : list number) (v0 : number) :
  let v := fold_left py_max vs v0 in
  num_leb v0 v = true /\
  Forall (fun x => num_leb x v = true) vs /\
  (v = v0 \/ In v vs).
Proof.
  revert v0. induction vs as [|x vs IH]; intros v0; simpl.
  - split; [apply num_leb_refl|]. split; [constructor | left; reflexivity].
  - destruct (IH (py_max v0 x)) as (Hge & Hall & Hin).
    destruct (py_max_cases v0 x) as [[E L]|[E L]]; rewrite E in *.
    + split; [exact Hge|]. split.
      * constructor; [eapply num_leb_trans; eauto | exact Hall].
      * destruct Hin; auto.
    + split; [eapply num_leb_trans; eauto|]. split.
      * constructor; [exact Hge | exact Hall].
      * destruct Hin; auto.
Qed.

Lemma fold_min_spec (vs : list number) (v0 : number) :
  let v := fold_left py_min vs v0 in
  num_leb v v0 = true /\
  Forall (fun x => num_leb v x = true) vs /\
  (v = v0 \/ In v vs).
Proof.
  revert v0. induction vs as [|x vs IH]; intros v0; simpl.
  - split; [apply num_leb_refl|]. split; [constructor | left; reflexivity].
  - destruct (IH (py_min v0 x)) as (Hge & Hall & Hin).
    destruct (py_min_cases v0 x) as [[E L]|[E L]]; rewrite E in *.
    + split; [exact Hge|]. split.
      * constructor; [eapply num_leb_trans; eauto | exact Hall].
      * destruct Hin; auto.
    + split; [eapply num_leb_trans; eauto|]. split.
      * constructor; [exact Hge | exact Hall].
      * destruct Hin; auto.
Qed.

Lemma num_leb_NegInf_r (x : number) : num_leb x NegInf = true -> x = NegInf.
Proof. destruct x; unfold num_leb; simpl; congruence. Qed.

Lemma num_leb_PosInf_l (x : number) : num_leb PosInf x = true -> x = PosInf.
Proof. destruct x; unfold num_leb; simpl; congruence. Qed.

Lemma fold_max_is_max (vs : list number) :
  is_max_of (fold_left py_max vs NegInf) vs.
Proof.
  destruct (fold_max_spec vs NegInf) as (_ & Hall & Hin).
  split; [exact Hall|]. split.
  - intros ->. reflexivity.
  - intros Hne. destruct Hin as [E|Hin]; [|exact Hin].
    destruct vs as [|x vs]; [congruence|].
    rewrite E in Hall. inversion Hall as [|? ? Hx Hrest]; subst.
    apply num_leb_NegInf_r in Hx. subst x. rewrite E. left. reflexivity.
Qed.

Lemma fold_min_is_min (vs : list number) :
  is_min_of (fold_left py_min vs PosInf) vs.
Proof.
  destruct (fold_min_spec vs PosInf) as (_ & Hall & Hin).
  split; [exact Hall|]. split.
  - intros ->. reflexivity.
  - intros Hne. destruct Hin as [E|Hin]; [|exact Hin].
    destruct vs as [|x vs]; [congruence|].
    rewrite E in Hall. inversion Hall as [|? ? Hx Hrest]; subst.
    apply num_leb_PosInf_l in Hx. subst x. rewrite E. left. reflexivity.
Qed.

(** ** Dicts *)

Lemma dict_get_app_fresh {V : Type} (done todo : dict V) (k : Z) (c : V) :
  ~ In k (dict_keys done) ->
  dict_get (done ++ (k, c) :: todo) k = Ok c.
Proof.
  induction done as [|[k' v'] done IH]; simpl; intros Hk.
  - rewrite Z.eqb_refl. reflexivity.
  - destruct (Z.eqb_spec k' k) as [->|Hne]; [tauto|]. apply IH. tauto.
Qed.

Lemma dict_set_app_fresh {V : Type} (done todo : dict V) (k : Z) (c c' : V) :
  ~ In k (dict_keys done) ->
  dict_set (done ++ (k, c) :: todo) k c' = done ++ (k, c') :: todo.
Proof.
  induction done as [|[k' v'] done IH]; simpl; intros Hk.
  - rewrite Z.eqb_refl. reflexivity.
  - destruct (Z.eqb_spec k' k) as [->|Hne]; [tauto|]. rewrite IH; tauto.
Qed.

Lemma dict_set_map {V : Type} (f : Z -> V) (keys : list Z) (k : Z) :
  dict_set (map (fun m => (m, f m)) keys) k (f k) =
  map (fun m => (m, f m))
      (if existsb (Z.eqb k) keys then keys else keys ++ [k]).
Proof.
  induction keys as [|k' keys IH]; simpl; [reflexivity|].
  rewrite (Z.eqb_sym k k').
  destruct (Z.eqb_spec k' k) as [->|Hne]; simpl; [reflexivity|].
  rewrite IH. destruct (existsb (Z.eqb k) keys); reflexivity.
Qed.

Lemma uniq_step_NoDup (seen : list Z) (m : Z) :
  List.NoDup seen ->
  List.NoDup (if existsb (Z.eqb m) seen then seen else seen ++ [m]).
Proof.
  intros Hnd. destruct (existsb (Z.eqb m) seen) eqn:E; [exact Hnd|].
  apply NoDup_app_remove_l with (l := []). simpl.
  assert (Hnot : ~ In m seen).
  { intros Hin. assert (existsb (Z.eqb m) seen = true) as E'.
    { apply existsb_exists. exists m. split; [exact Hin | apply Z.eqb_refl]. }
    congruence. }
  clear E. induction Hnd as [|x l Hx Hl IH]; simpl.
  - constructor; [tauto | constructor].
  - constructor.
    + rewrite in_app_iff. simpl. intros [?|[?|[]]]; [tauto|]. subst. simpl in Hnot. tauto.
    + apply IH. simpl in Hnot. tauto.
Qed.

Lemma uniq_from_spec (moves seen : list Z) :
  let r := fold_left (fun seen m => if existsb (Z.eqb m) seen then seen
                                    else seen ++ [m]) moves seen in
  (List.NoDup seen -> List.NoDup r) /\
  (forall m, In m r <-> In m seen \/ In m moves).
Proof.
  revert seen. induction moves as [|m moves IH]; intros seen; simpl.
  - split; [auto|]. intros m. tauto.
  - destruct (IH (if existsb (Z.eqb m) seen then seen else seen ++ [m]))
      as [Hnd Hin].
    split.
    + intros Hs. apply Hnd. apply uniq_step_NoDup. exact Hs.
    + intros x. rewrite Hin.
      destruct (existsb (Z.eqb m) seen) eqn:E.
      * apply existsb_exists in E. destruct E as (y & Hy & Ey).
        apply Z.eqb_eq in Ey. subst y.
        split; [tauto|]. intros [?|[?|?]]; subst; tauto.
      * rewrite in_app_iff. simpl. tauto.
Qed.

Lemma uniq_NoDup (moves : list Z) : List.NoDup (uniq moves).
Proof. apply (uniq_from_spec moves []). constructor. Qed.

Lemma uniq_In (moves : list Z) (m : Z) : In m (uniq moves) <-> In m moves.
Proof.
  unfold uniq. destruct (uniq_from_spec moves []) as [_ Hin].
  rewrite Hin. simpl. tauto.
Qed.

(** ** The loops of minimax *)

Section SearchFacts.

Context `{Rules}.

Lemma expand_from (s : State) (v : number) (moves keys : list Z) :
  fold_left (fun node move =>
      let state_cpy := deepcopy (state node) in
      let state_cpy := advance_state state_cpy move in
      set_successor node move (MinimaxNode_init state_cpy))
    moves
    (mkNode s v (map (fun m => (m, MinimaxNode_init (advance_state s m)))
                     keys)) =
  mkNode s v
    (map (fun m => (m, MinimaxNode_init (advance_state s m)))
         (fold_left (fun seen m => if existsb (Z.eqb m) seen then seen
                                   else seen ++ [m]) moves keys)).
Proof.
  revert keys. induction moves as [|m moves IH]; intros keys; simpl.
  - reflexivity.
  - unfold set_successor at 2. unfold deepcopy at 2. simpl.
    rewrite (dict_set_map (fun m => MinimaxNode_init (advance_state s m))).
    apply IH.
Qed.

Lemma expand_fresh (s : State) (v : number) :
  expand (mkNode s v []) = mkNode s v (fresh_children s).
Proof. unfold expand, fresh_children, uniq. simpl. apply (expand_from s v _ []). Qed.

Lemma fresh_children_keys (s : State) :
  dict_keys (fresh_children s) = uniq (get_legal_moves s).
Proof.
  unfold fresh_children, dict_keys. rewrite map_map. simpl. apply map_id.
Qed.

(** The evaluation loop visits the successors in order, replaces each by
    its evaluated form and folds the returned values. *)
Lemma eval_successors_from
    (search : MinimaxNode -> result (MinimaxNode * number))
    (better : number -> number -> number) (s : State)
    (todo done : dict MinimaxNode) (v : number) :
  List.NoDup (dict_keys (done ++ todo)) ->
  for_each (dict_keys todo) (mkNode s v (done ++ todo)) (fun node child =>
    let* c := dict_get (successors node) child in
    let* (c', x) := search c in
    Ok (set_value (set_successor node child c') (better (value node) x))) =
  (let* rs := eval_list search todo in
   Ok (mkNode s (fold_left better (map snd rs) v) (done ++ map fst rs))).
Proof.
  revert done v. induction todo as [|[k c] todo IH]; intros done v Hnd.
  - simpl. reflexivity.
  - simpl. unfold dict_keys in Hnd. rewrite map_app in Hnd. simpl in Hnd.
    assert (Hk : ~ In k (dict_keys done)).
    { apply NoDup_remove_2 in Hnd. rewrite in_app_iff in Hnd. tauto. }
    rewrite dict_get_app_fresh by exact Hk. simpl.
    destruct (search c) as [[c' x]|e]; simpl; [|reflexivity].
    unfold set_successor, set_value. simpl.
    rewrite dict_set_app_fresh by exact Hk.
    replace (done ++ (k, c') :: todo) with ((done ++ [(k, c')]) ++ todo)
      by (rewrite <- app_assoc; reflexivity).
    rewrite IH.
    + destruct (eval_list search todo) as [rs|e]; simpl; [|reflexivity].
      rewrite <- app_assoc. reflexivity.
    + unfold dict_keys. rewrite !map_app. simpl. rewrite <- app_assoc.
      exact Hnd.
Qed.

Lemma eval_successors_eq
    (search : MinimaxNode -> result (MinimaxNode * number))
    (better : number -> number -> number) (s : State) (v : number)
    (d : dict MinimaxNode) :
  List.NoDup (dict_keys d) ->
  eval_successors search better (mkNode s v d) =
  (let* rs := eval_list search d in
   Ok (mkNode s (fold_left better (map snd rs) v) (map fst rs))).
Proof.
  intros Hnd. unfold eval_successors. simpl.
  apply (eval_successors_from search better s d [] v). exact Hnd.
Qed.

(** One step of minimax on a new node that is expanded. *)
Lemma minimax_expand (fuel : nat) (s : State) (depth : Z) (max_role : string)
    (heuristic_fn : State -> string -> result Z) :
  depth <> 0 -> is_terminal s = false ->
  minimax (S fuel) (MinimaxNode_init s) depth max_role heuristic_fn =
  (let* rs := eval_list
                (fun c => minimax fuel c (depth - 1) max_role heuristic_fn)
                (fresh_children s) in
   let v := if String.eqb (turn s) max_role
            then fold_left py_max (map snd rs) NegInf
            else fold_left py_min (map snd rs) PosInf in
   Ok (mkNode s v (map fst rs), v)).
Proof.
  intros Hd Ht. change (MinimaxNode_init s) with (mkNode s (Num 0) []).
  simpl minimax.
  destruct (Z.eqb_spec depth 0) as [|_]; [contradiction|].
  rewrite Ht. simpl orb. cbv iota.
  rewrite expand_fresh. simpl state.
  assert (Hnd : List.NoDup (dict_keys (fresh_children s))).
  { rewrite fresh_children_keys. apply uniq_NoDup. }
  destruct (String.eqb (turn s) max_role); unfold set_value; simpl;
    rewrite eval_successors_eq by exact Hnd;
    destruct (eval_list _ _) as [rs|e]; reflexivity.
Qed.

(** The base case. *)
Lemma minimax_base (fuel : nat) (node : MinimaxNode) (depth : Z)
    (max_role : string) (heuristic_fn : State -> string -> result Z) :
  depth = 0 \/ is_terminal (state node) = true ->
  minimax (S fuel) node depth max_role heuristic_fn =
  (let* v := heuristic_fn (state node) max_role in
   Ok (mkNode (state node) (Num v) (successors node), Num v)).
Proof.
  intros Hb. simpl.
  assert (E : (depth =? 0) || is_terminal (state node) = true).
  { destruct Hb as [-> | ->]; [reflexivity | apply orb_true_r]. }
  rewrite E. reflexivity.
Qed.

End SearchFacts.

(** ** The search against its reference tree *)

Section SearchTree.

Context `{Rules}.

Lemma minimax_returns_value (fuel : nat) (node node' : MinimaxNode)
    (depth : Z) (max_role : string)
    (heuristic_fn : State -> string -> result Z) (v : number) :
  minimax fuel node depth max_role heuristic_fn = Ok (node', v) ->
  v = value node'.
Proof.
  destruct fuel as [|fuel]; simpl; [discriminate|].
  destruct ((depth =? 0) || is_terminal (state node)).
  - destruct (heuristic_fn (state node) max_role); simpl; [|discriminate].
    intros [= <- <-]. reflexivity.
  - destruct (String.eqb (turn (state (expand node))) max_role);
      destruct (eval_successors _ _ _); simpl; try discriminate;
      intros [= <- <-]; reflexivity.
Qed.

Lemma eval_list_fresh
    (search : MinimaxNode -> result (MinimaxNode * number))
    (s : State) (g : Z -> MinimaxNode) (keys : list Z) :
  (forall m, In m keys ->
     search (MinimaxNode_init (advance_state s m)) = Ok (g m, value (g m))) ->
  eval_list search
    (map (fun m => (m, MinimaxNode_init (advance_state s m))) keys) =
  Ok (map (fun m => (m, g m, value (g m))) keys).
Proof.
  induction keys as [|k keys IH]; intros Hs; simpl; [reflexivity|].
  rewrite (Hs k) by (left; reflexivity). simpl.
  rewrite IH by (intros m Hm; apply Hs; right; exact Hm).
  reflexivity.
Qed.

Lemma within_here (p : State -> bool) (n : nat) (s : State) :
  within p n s = true -> p s = true.
Proof. destruct n; simpl; intros E; apply andb_true_iff in E; tauto. Qed.

Lemma within_child (p : State -> bool) (n : nat) (s : State) (m : Z) :
  within p (S n) s = true -> is_terminal s = false ->
  In m (get_legal_moves s) -> within p n (advance_state s m) = true.
Proof.
  simpl. intros E Ht Hm. apply andb_true_iff in E. destruct E as [_ E].
  rewrite Ht in E. simpl in E. rewrite forallb_forall in E. apply E, Hm.
Qed.

Lemma within_true (n : nat) (s : State) : within (fun _ => true) n s = true.
Proof.
  revert s. induction n as [|n IH]; intros s; simpl; [reflexivity|].
  destruct (is_terminal s); simpl; [reflexivity|].
  apply forallb_forall. intros m _. apply IH.
Qed.

Lemma ends_within_child (n : nat) (s : State) (m : Z) :
  ends_within (S n) s = true -> is_terminal s = false ->
  In m (get_legal_moves s) -> ends_within n (advance_state s m) = true.
Proof.
  simpl. intros E Ht Hm. rewrite Ht in E. simpl in E.
  rewrite forallb_forall in E. apply E, Hm.
Qed.

(** On a new node the search builds exactly the reference tree: for a depth
    of [n] plies, or for any depth that cannot reach 0 before every line of
    play has ended. *)
Lemma minimax_search_tree (p : State -> bool)
    (heuristic_fn : State -> string -> result Z) (h : State -> string -> Z)
    (max_role : string) :
  (forall s, p s = true -> heuristic_fn s max_role = Ok (h s max_role)) ->
  forall (n fuel : nat) (s : State) (depth : Z),
  (n < fuel)%nat ->
  depth = Z.of_nat n \/
    (ends_within n s = true /\ (depth < 0 \/ Z.of_nat n <= depth)) ->
  within p n s = true ->
  minimax fuel (MinimaxNode_init s) depth max_role heuristic_fn =
  Ok (search_tree h max_role n s, value (search_tree h max_role n s)).
Proof.
  intros Hh. induction n as [|n IH]; intros fuel s depth Hfuel Hdepth Hp.
  - destruct fuel as [|fuel]; [lia|].
    rewrite minimax_base.
    + simpl state. rewrite Hh by (eapply within_here; eauto). reflexivity.
    + simpl state. destruct Hdepth as [-> | [He _]]; [left; reflexivity|].
      right. simpl in He. rewrite orb_false_r in He. exact He.
  - destruct fuel as [|fuel]; [lia|].
    destruct (is_terminal s) eqn:Ht.
    + rewrite minimax_base by (right; exact Ht). simpl state.
      rewrite Hh by (eapply within_here; eauto). simpl. rewrite Ht.
      reflexivity.
    + rewrite minimax_expand; [|lia|exact Ht].
      unfold fresh_children.
      rewrite (eval_list_fresh _ s
                 (fun m => search_tree h max_role n (advance_state s m))).
      * simpl. rewrite Ht. rewrite !map_map. simpl.
        destruct (String.eqb (turn s) max_role); reflexivity.
      * intros m Hm. apply (proj1 (uniq_In _ _)) in Hm. apply IH.
        -- lia.
        -- destruct Hdepth as [-> | [He Hd]]; [left; lia|].
           right. split; [apply (ends_within_child n s m He Ht Hm) | lia].
        -- apply (within_child p n s m Hp Ht Hm).
Qed.

(** A heuristic that does not raise: the search returns for every depth
    from 0 up to the fuel. *)
Lemma minimax_total (h : State -> string -> Z) (max_role : string)
    (fuel : nat) (s : State) (depth : Z) :
  0 <= depth < Z.of_nat fuel ->
  minimax fuel (MinimaxNode_init s) depth max_role
          (fun s r => Ok (h s r)) =
  Ok (search_tree h max_role (Z.to_nat depth) s,
      value (search_tree h max_role (Z.to_nat depth) s)).
Proof.
  intros Hd.
  apply (minimax_search_tree (fun _ => true)).
  - reflexivity.
  - lia.
  - left. lia.
  - apply within_true.
Qed.

End SearchTree.

(** ** The heuristics *)

Lemma terminal_score (s : State) (max_role : string) :
  is_terminal s = true ->
  let score := if String.eqb (winner s) EmptyString then 0
               else if String.eqb (winner s) max_role then 100 else -100 in
  zero_heur s max_role = Ok score /\
  three_line_heur s max_role = Ok score /\
  my_heuristic s max_role = Ok score.
Proof.
  intros Ht. unfold zero_heur, three_line_heur, my_heuristic. rewrite Ht.
  destruct (String.eqb (winner s) EmptyString); [auto|].
  destruct (String.eqb (winner s) max_role); auto.
Qed.

Lemma zero_heur_total (s : State) (max_role : string) :
  zero_heur s max_role =
  Ok (if is_terminal s
      then (if String.eqb (winner s) EmptyString then 0
            else if String.eqb (winner s) max_role then 100 else -100)
      else 0).
Proof.
  unfold zero_heur. destruct (is_terminal s); [|reflexivity].
  destruct (String.eqb (winner s) EmptyString); [reflexivity|].
  destruct (String.eqb (winner s) max_role); reflexivity.
Qed.

Lemma py_range2_In (a b i : Z) : In i (py_range2 a b) <-> a <= i < b.
Proof.
  unfold py_range2. rewrite in_map_iff. split.
  - intros (k & <- & Hk). apply in_seq in Hk. lia.
  - intros Hi. exists (Z.to_nat (i - a)). split; [lia|].
    apply in_seq. lia.
Qed.

Lemma py_range_In (n i : Z) : In i (py_range n) <-> 0 <= i < n.
Proof. apply py_range2_In. Qed.

Lemma py_index_nth {A : Type} (l : list A) (k : Z) (d : A) :
  0 <= k < len l -> py_index l k = Ok (nth (Z.to_nat k) l d).
Proof.
  intros Hk. unfold py_index.
  destruct (Z.ltb_spec k 0) as [|_]; [lia|].
  destruct (Z.leb_spec 0 k) as [_|]; [|lia].
  destruct (Z.ltb_spec k (len l)) as [_|]; [|lia]. simpl.
  destruct (nth_error l (Z.to_nat k)) as [x|] eqn:E.
  - f_equal. symmetry. apply nth_error_nth. exact E.
  - apply nth_error_None in E. unfold len in Hk. lia.
Qed.

Lemma board_at_mark (cols rows : Z) (s : State) (i j : Z) :
  well_formed cols rows s = true -> coords_legal s i j = true ->
  board_at s i j = Ok (mark_at s i j).
Proof.
  unfold well_formed, coords_legal, board_at, mark_at.
  rewrite !andb_true_iff, !Z.eqb_eq, !Z.leb_le, !Z.ltb_lt, forallb_forall.
  intros [[[Hc Hr] Hl] Hall] [[[Hi1 Hi2] Hj1] Hj2].
  rewrite (py_index_nth (board s) i []) by lia. simpl.
  apply py_index_nth.
  assert (Hin : In (nth (Z.to_nat i) (board s) []) (board s)).
  { apply nth_In. unfold len in Hl. lia. }
  apply Hall in Hin. apply Z.eqb_eq in Hin. lia.
Qed.

Lemma coords_legal_between (s : State) (i j dc dr : Z) :
  coords_legal s i j = true ->
  coords_legal s (i + 2 * dc) (j + 2 * dr) = true ->
  coords_legal s (i + dc) (j + dr) = true.
Proof.
  unfold coords_legal.
  rewrite !andb_true_iff, !Z.leb_le, !Z.ltb_lt. lia.
Qed.

(** One direction at one occupied cell. *)
Lemma three_line_step (cols rows : Z) (s : State) (max_role : string)
    (i j dc dr acc : Z) :
  well_formed cols rows s = true -> coords_legal s i j = true ->
  String.eqb (mark_at s i j) "." = false ->
  (if coords_legal s (i + 2 * dc) (j + 2 * dr) then
     let* next := board_at s (i + dc) (j + dr) in
     if String.eqb (mark_at s i j) next then
       let* far := board_at s (i + 2 * dc) (j + 2 * dr) in
       if String.eqb (mark_at s i j) far then
         if String.eqb (mark_at s i j) max_role then Ok (acc + 1)
         else Ok (acc - 1)
       else Ok acc
     else Ok acc
   else Ok acc) =
  Ok (acc + three_line_term s max_role (i, j, (dc, dr))).
Proof.
  intros Hwf Hij Hocc. unfold three_line_term, three_line, owned_by.
  simpl fst. simpl snd. rewrite Hocc. simpl negb. simpl andb.
  destruct (coords_legal s (i + 2 * dc) (j + 2 * dr)) eqn:Hfar; simpl;
    [|f_equal; lia].
  rewrite (board_at_mark cols rows) by
    (auto using coords_legal_between). simpl.
  destruct (String.eqb (mark_at s i j) (mark_at s (i + dc) (j + dr))); simpl;
    [|f_equal; lia].
  rewrite (board_at_mark cols rows) by auto. simpl.
  destruct (String.eqb (mark_at s i j)
              (mark_at s (i + 2 * dc) (j + 2 * dr))); simpl;
    [|f_equal; lia].
  destruct (String.eqb (mark_at s i j) max_role); f_equal; lia.
Qed.

(** A loop that adds a term per element adds their sum. *)
Lemma for_each_sum {A : Type} (l : list A) (f : A -> Z)
    (body : Z -> A -> result Z) (acc : Z) :
  (forall x a, In x l -> body a x = Ok (a + f x)) ->
  for_each l acc body = Ok (acc + zsum (map f l)).
Proof.
  revert acc. induction l as [|x l IH]; intros acc Hb; simpl.
  - f_equal. lia.
  - rewrite Hb by (left; reflexivity). simpl.
    rewrite IH by (intros; apply Hb; right; assumption).
    f_equal. lia.
Qed.

Lemma zsum_app (l1 l2 : list Z) : zsum (l1 ++ l2) = zsum l1 + zsum l2.
Proof. induction l1 as [|x l1 IH]; simpl; [reflexivity | rewrite IH; lia]. Qed.

Lemma three_line_term_empty (s : State) (max_role : string) (i j : Z)
    (d : Z * Z) :
  String.eqb (mark_at s i j) "." = true ->
  three_line_term s max_role (i, j, d) = 0.
Proof.
  intros E. unfold three_line_term, three_line. destruct d as [dc dr].
  rewrite E. reflexivity.
Qed.

(** The direction loop at one cell. *)
Lemma three_line_cell (cols rows : Z) (s : State) (max_role : string)
    (i j acc : Z) :
  well_formed cols rows s = true -> coords_legal s i j = true ->
  (let* here := board_at s i j in
   if negb (String.eqb here ".") then
     let* piece := board_at s i j in
     for_each (py_range (len col_dirs)) acc (fun result dir =>
       let* dc := py_index col_dirs dir in
       let* dr := py_index row_dirs dir in
       let farthest_pnt := (i + 2 * dc, j + 2 * dr) in
       if coords_legal s (fst farthest_pnt) (snd farthest_pnt) then
         let* dc1 := py_index col_dirs dir in
         let* dr1 := py_index row_dirs dir in
         let* next := board_at s (i + dc1) (j + dr1) in
         if String.eqb piece next then
           let* far := board_at s (fst farthest_pnt) (snd farthest_pnt) in
           if String.eqb piece far then
             if String.eqb piece max_role then Ok (result + 1)
             else Ok (result - 1)
           else Ok result
         else Ok result
       else Ok result)
   else Ok acc) =
  Ok (acc + zsum (map (fun d => three_line_term s max_role (i, j, d))
                      directions)).
Proof.
  intros Hwf Hij. rewrite (board_at_mark cols rows) by auto. simpl bind.
  destruct (String.eqb (mark_at s i j) ".") eqn:Hocc; simpl negb; cbv iota.
  - f_equal. simpl.
    rewrite !(three_line_term_empty s max_role i j) by exact Hocc. lia.
  - rewrite (three_line_step cols rows s max_role i j 1 0) by auto.
    simpl bind.
    rewrite (three_line_step cols rows s max_role i j 1 1) by auto.
    simpl bind.
    rewrite (three_line_step cols rows s max_role i j 0 1) by auto.
    simpl bind.
    rewrite (three_line_step cols rows s max_role i j (-1) 1) by auto.
    cbn [bind map zsum fold_right combine col_dirs row_dirs directions].
    f_equal. lia.
Qed.

Lemma zsum_map_flat_map {A B : Type} (f : B -> Z) (g : A -> list B)
    (l : list A) :
  zsum (map f (flat_map g l)) = zsum (map (fun x => zsum (map f (g x))) l).
Proof.
  induction l as [|x l IH]; simpl; [reflexivity|].
  rewrite map_app, zsum_app, IH. reflexivity.
Qed.

Lemma zsum_term_count {A : Type} (l : list A) (run own : A -> bool) :
  zsum (map (fun w => if run w then (if own w then 1 else -1) else 0) l) =
  len (List.filter (fun w => run w && own w) l)
  - len (List.filter (fun w => run w && negb (own w)) l).
Proof.
  unfold len. induction l as [|w l IH]; simpl; [reflexivity|].
  rewrite IH. destruct (run w), (own w); simpl; lia.
Qed.

(** [three_line_heur] on a non-terminal, well-formed state. *)
Lemma three_line_heur_count (cols rows : Z) (s : State) (max_role : string) :
  well_formed cols rows s = true -> is_terminal s = false ->
  three_line_heur s max_role = Ok (three_line_count s max_role).
Proof.
  intros Hwf Ht. unfold three_line_heur. rewrite Ht.
  rewrite (for_each_sum _
    (fun i => zsum (map (fun j =>
       zsum (map (fun d => three_line_term s max_role (i, j, d)) directions))
       (py_range (num_rows s))))).
  - f_equal. unfold three_line_count.
    rewrite <- (zsum_term_count (line_starts s) (three_line s)
                  (owned_by s max_role)).
    change (fun w => if three_line s w
                     then if owned_by s max_role w then 1 else -1 else 0)
      with (three_line_term s max_role).
    unfold line_starts. rewrite zsum_map_flat_map. rewrite Z.add_0_l.
    f_equal. apply map_ext. intros i.
    rewrite zsum_map_flat_map. reflexivity.
  - intros i a Hi. apply py_range_In in Hi.
    apply for_each_sum. intros j b Hj. apply py_range_In in Hj.
    apply (three_line_cell cols rows); [exact Hwf|].
    unfold coords_legal.
    rewrite !andb_true_iff, !Z.leb_le, !Z.ltb_lt. lia.
Qed.

Lemma filter_length_le {A : Type} (p q : A -> bool) (l : list A) :
  (forall x, p x = true -> q x = true) ->
  (length (List.filter p l) <= length (List.filter q l))%nat.
Proof.
  intros Hpq. induction l as [|x l IH]; simpl; [lia|].
  destruct (p x) eqn:Ep.
  - rewrite (Hpq x Ep). simpl. lia.
  - destruct (q x); simpl; lia.
Qed.

(** On the board of 7 columns and 6 rows there are 98 places for three
    cells in a line, which bounds the count. *)
Lemma three_line_count_bound (s : State) (max_role : string) :
  num_cols s = 7 -> num_rows s = 6 ->
  -98 <= three_line_count s max_role <= 98.
Proof.
  intros Hc Hr.
  pose (far := fun w : Z * Z * (Z * Z) =>
          coords_legal s (fst (fst w) + 2 * fst (snd w))
                         (snd (fst w) + 2 * snd (snd w))).
  assert (Hfar : forall w, three_line s w = true -> far w = true).
  { intros [[i j] [dc dr]]. unfold three_line, far. simpl.
    rewrite !andb_true_iff. tauto. }
  assert (H98 : length (List.filter far (line_starts s)) = 98%nat).
  { unfold far, line_starts, coords_legal. rewrite Hc, Hr.
    vm_compute. reflexivity. }
  unfold three_line_count, len.
  pose proof (filter_length_le
    (fun w => three_line s w && owned_by s max_role w) far (line_starts s))
    as H1.
  pose proof (filter_length_le
    (fun w => three_line s w && negb (owned_by s max_role w)) far
    (line_starts s)) as H2.
  rewrite H98 in H1, H2.
  assert (length (List.filter
            (fun w => three_line s w && owned_by s max_role w)
            (line_starts s)) <= 98)%nat.
  { apply H1. intros w E. apply andb_true_iff in E. apply Hfar. tauto. }
  assert (length (List.filter
            (fun w => three_line s w && negb (owned_by s max_role w))
            (line_starts s)) <= 98)%nat.
  { apply H2. intros w E. apply andb_true_iff in E. apply Hfar. tauto. }
  lia.
Qed.

(** ** Bounds on the values of the reference tree *)

Lemma all_nodes_unfold (p : MinimaxNode -> bool) (s : State) (v : number)
    (d : dict MinimaxNode) :
  all_nodes p (mkNode s v d) =
  p (mkNode s v d) && forallb (fun kc => all_nodes p (snd kc)) d.
Proof.
  simpl. f_equal. induction d as [|[k c] d IH]; simpl; [reflexivity|].
  rewrite IH. reflexivity.
Qed.

Section Bounds.

Context `{Rules}.

Lemma within_mono (p q : State -> bool) (n : nat) (s : State) :
  (forall s', p s' = true -> q s' = true) ->
  within p n s = true -> within q n s = true.
Proof.
  intros Hpq. revert s. induction n as [|n IH]; intros s; simpl.
  - rewrite !andb_true_r. apply Hpq.
  - rewrite !andb_true_iff, !orb_true_iff, !forallb_forall.
    intros [Hp [Ht|Hall]]; (split; [apply Hpq; exact Hp|]); auto.
Qed.

(** Where the heuristic stays in [lo .. hi] and every state that is
    expanded has a move, every value of the tree stays in [lo .. hi]. *)
Lemma search_tree_bounded (p : State -> bool) (h : State -> string -> Z)
    (max_role : string) (lo hi : Z) :
  (forall s, p s = true -> lo <= h s max_role <= hi) ->
  forall (n : nat) (s : State),
  within (fun s => p s && can_move s) n s = true ->
  all_nodes (value_in lo hi) (search_tree h max_role n s) = true.
Proof.
  intros Hh. induction n as [|n IH]; intros s Hw.
  - simpl in *. rewrite !andb_true_r in *.
    apply andb_true_iff in Hw. destruct Hw as [Hp _].
    unfold value_in. simpl. specialize (Hh s Hp).
    apply andb_true_iff. rewrite Z.leb_le, Z.leb_le. lia.
  - pose proof (within_here _ _ _ Hw) as Hps.
    apply andb_true_iff in Hps. destruct Hps as [Hp Hcm].
    simpl search_tree. destruct (is_terminal s) eqn:Ht.
    + rewrite all_nodes_unfold. simpl. rewrite andb_true_r.
      unfold value_in. simpl. specialize (Hh s Hp).
      apply andb_true_iff. rewrite Z.leb_le, Z.leb_le. lia.
    + rewrite all_nodes_unfold.
      set (kids := map (fun m => (m, search_tree h max_role n
                                       (advance_state s m)))
                       (uniq (get_legal_moves s))).
      assert (Hkids : forallb (fun kc => all_nodes (value_in lo hi) (snd kc))
                              kids = true).
      { apply forallb_forall. intros [k c] Hin. unfold kids in Hin.
        apply in_map_iff in Hin. destruct Hin as (m & [= <- <-] & Hm).
        simpl. apply IH. apply (proj1 (uniq_In _ _)) in Hm.
        apply (within_child _ n s m Hw Ht Hm). }
      rewrite Hkids, andb_true_r.
      set (vals := map (fun kc => value (snd kc)) kids).
      assert (Hvals : Forall (fun v => exists z, v = Num z /\ lo <= z <= hi)
                             vals).
      { apply List.Forall_forall. intros v Hv. unfold vals in Hv.
        apply in_map_iff in Hv. destruct Hv as ([k c] & <- & Hkc).
        rewrite forallb_forall in Hkids. specialize (Hkids _ Hkc).
        simpl in Hkids. destruct c as [cs cv cd].
        rewrite all_nodes_unfold in Hkids.
        apply andb_true_iff in Hkids. destruct Hkids as [Hv _].
        unfold value_in in Hv. simpl in *. destruct cv; try discriminate.
        exists z. split; [reflexivity|].
        apply andb_true_iff in Hv. rewrite !Z.leb_le in Hv. lia. }
      assert (Hne : vals <> []).
      { unfold vals, kids. unfold can_move in Hcm. rewrite Ht in Hcm.
        simpl in Hcm.
        destruct (get_legal_moves s) as [|m ms] eqn:Em; [discriminate|].
        assert (Hin : In m (uniq (m :: ms))).
        { apply uniq_In. left. reflexivity. }
        destruct (uniq (m :: ms)); [destruct Hin | discriminate]. }
      assert (Hv : exists z,
                (if String.eqb (turn s) max_role
                 then fold_left py_max vals NegInf
                 else fold_left py_min vals PosInf) = Num z
                /\ lo <= z <= hi).
      { rewrite List.Forall_forall in Hvals. apply Hvals.
        destruct (String.eqb (turn s) max_role).
        - apply (fold_max_is_max vals). exact Hne.
        - apply (fold_min_is_min vals). exact Hne. }
      destruct Hv as (z & Ez & Hz).
      unfold value_in. simpl value. rewrite Ez.
      apply andb_true_iff. rewrite !Z.leb_le. lia.
Qed.

End Bounds.

(** ** The scan of play *)

Lemma dict_get_In {V : Type} (d : dict V) (k : Z) :
  In k (dict_keys d) -> exists c, dict_get d k = Ok c /\ In (k, c) d.
Proof.
  induction d as [|[k' v'] d IH]; simpl; [tauto|].
  intros Hk. destruct (Z.eqb_spec k' k) as [->|Hne].
  - exists v'. auto.
  - destruct Hk as [?|Hk]; [contradiction|].
    destruct (IH Hk) as (c & Hc & Hin). exists c. auto.
Qed.

Lemma dict_get_Ok_In {V : Type} (d : dict V) (k : Z) (c : V) :
  dict_get d k = Ok c -> In (k, c) d.
Proof.
  induction d as [|[k' v'] d IH]; simpl; [discriminate|].
  destruct (Z.eqb_spec k' k) as [->|Hne].
  - intros [= ->]. auto.
  - auto.
Qed.

Lemma dict_get_NoDup {V : Type} (d : dict V) (k : Z) (c : V) :
  List.NoDup (dict_keys d) -> In (k, c) d -> dict_get d k = Ok c.
Proof.
  induction d as [|[k' v'] d IH]; simpl; [tauto|].
  intros Hnd Hin. inversion Hnd as [|? ? Hk' Hnd']; subst.
  destruct (Z.eqb_spec k' k) as [->|Hne].
  - destruct Hin as [[= ->]|Hin]; [reflexivity|].
    exfalso. apply Hk'. unfold dict_keys. apply in_map_iff.
    exists (k, c). auto.
  - destruct Hin as [[= ? ?]|Hin]; [contradiction|]. auto.
Qed.

Lemma score_of_values (n : MinimaxNode) :
  List.NoDup (dict_keys (successors n)) ->
  map (score_of n) (dict_keys (successors n)) = child_values n.
Proof.
  intros Hnd. unfold child_values, dict_keys. rewrite map_map.
  apply map_ext_in. intros [k c] Hin. unfold score_of. simpl.
  rewrite (dict_get_NoDup _ k c Hnd Hin). reflexivity.
Qed.

Lemma scan_best_from (root : MinimaxNode) (keys best : list Z) :
  (forall k, In k keys -> In k (dict_keys (successors root))) ->
  (forall b, In b best -> In b (dict_keys (successors root))) ->
  for_each keys best (fun best_moves move =>
    if len best_moves =? 0 then Ok [move]
    else
      let* c := dict_get (successors root) move in
      let* b0 := py_index best_moves 0 in
      let* cb := dict_get (successors root) b0 in
      if num_ltb (value cb) (value c) then Ok [move]
      else if num_eqb (value c) (value cb) then Ok (best_moves ++ [move])
      else Ok best_moves) =
  Ok (fold_left (keep_best (score_of root)) keys best).
Proof.
  revert best. induction keys as [|m keys IH]; intros best Hkeys Hbest.
  - reflexivity.
  - simpl for_each. simpl fold_left.
    assert (Hm : In m (dict_keys (successors root)))
      by (apply Hkeys; left; reflexivity).
    assert (Hrest : forall k, In k keys ->
                      In k (dict_keys (successors root)))
      by (intros; apply Hkeys; right; assumption).
    destruct best as [|b0 best].
    + simpl. apply IH; [exact Hrest|].
      intros b [<-|[]]. exact Hm.
    + assert (Hb0 : In b0 (dict_keys (successors root)))
        by (apply Hbest; left; reflexivity).
      destruct (dict_get_In _ _ Hm) as (c & Ec & _).
      destruct (dict_get_In _ _ Hb0) as (cb & Ecb & _).
      assert (Elen : (len (b0 :: best) =? 0) = false).
      { apply Z.eqb_neq. unfold len. simpl. lia. }
      rewrite Elen, Ec. simpl bind. rewrite Ecb. simpl bind.
      assert (Hstep : keep_best (score_of root) (b0 :: best) m =
                if num_ltb (value cb) (value c) then [m]
                else if num_eqb (value c) (value cb)
                     then (b0 :: best) ++ [m] else b0 :: best).
      { unfold keep_best, score_of. rewrite Ec, Ecb. reflexivity. }
      rewrite Hstep. clear Hstep.
      destruct (num_ltb (value cb) (value c)).
      * simpl. apply IH; [exact Hrest|]. intros b [<-|[]]. exact Hm.
      * destruct (num_eqb (value c) (value cb)); simpl.
        -- apply IH; [exact Hrest|]. intros b Hb.
           change (In b ((b0 :: best) ++ [m])) in Hb.
           apply in_app_iff in Hb. destruct Hb as [Hb|[<-|[]]]; auto.
        -- apply IH; [exact Hrest | exact Hbest].
Qed.

Lemma scan_best_eq `{Rules} (root : MinimaxNode) :
  scan_best root =
  Ok (fold_left (keep_best (score_of root)) (dict_keys (successors root)) []).
Proof.
  unfold scan_best. apply scan_best_from; [auto|]. intros b [].
Qed.

Lemma keep_best_kept (score : Z -> number) (seen best : list Z) (m : Z) :
  kept_best score seen best ->
  kept_best score (seen ++ [m]) (keep_best score best m).
Proof.
  intros [[-> ->]|(Hne & v & Hall & Hbest)]; right.
  - simpl. split; [discriminate|]. exists (score m). split.
    + constructor; [apply num_leb_refl | constructor].
    + intros k. simpl. split; [intros [<-|[]]; auto | intros [[<-|[]] _]; auto].
  - destruct best as [|b0 best]; [congruence|]. clear Hne.
    assert (Hb0 : score b0 = v) by (apply Hbest; left; reflexivity).
    unfold keep_best. rewrite Hb0.
    destruct (num_ltb v (score m)) eqn:Elt.
    + split; [discriminate|]. exists (score m). split.
      * apply Forall_app. split.
        -- eapply List.Forall_impl; [|exact Hall]. simpl. intros k Hk.
           eapply num_leb_trans; [exact Hk | apply num_ltb_leb, Elt].
        -- constructor; [apply num_leb_refl | constructor].
      * intros k. rewrite in_app_iff. simpl. split.
        -- intros [<-|[]]. auto.
        -- intros [[Hk|[<-|[]]] Ek]; auto.
           exfalso. rewrite List.Forall_forall in Hall.
           specialize (Hall k Hk). rewrite Ek in Hall.
           unfold num_leb in Hall. rewrite Elt in Hall. discriminate.
    + assert (Hle : num_leb (score m) v = true)
        by (unfold num_leb; rewrite Elt; reflexivity).
      destruct (num_eqb (score m) v) eqn:Eeq.
      * apply num_eqb_eq in Eeq.
        split; [destruct best; discriminate|]. exists v. split.
        -- apply Forall_app. split; [exact Hall|].
           constructor; [exact Hle | constructor].
        -- intros k. rewrite !in_app_iff, Hbest. split.
           ++ intros [[? ?]|[<-|[]]]; (split; [|auto]);
                [left; assumption | right; left; reflexivity].
           ++ intros [[?|[<-|[]]] ?]; [left; auto | right; left; reflexivity].
      * split; [discriminate|]. exists v. split.
        -- apply Forall_app. split; [exact Hall|].
           constructor; [exact Hle | constructor].
        -- intros k. rewrite in_app_iff, Hbest. split.
           ++ intros [? ?]. auto.
           ++ intros [[?|[<-|[]]] Ek]; auto.
              exfalso. apply num_eqb_eq in Ek. congruence.
Qed.

Lemma fold_keep_best_kept (score : Z -> number) (keys seen best : list Z) :
  kept_best score seen best ->
  kept_best score (seen ++ keys) (fold_left (keep_best score) keys best).
Proof.
  revert seen best. induction keys as [|m keys IH]; intros seen best Hk.
  - rewrite app_nil_r. exact Hk.
  - simpl. replace (seen ++ m :: keys) with ((seen ++ [m]) ++ keys)
      by (rewrite <- app_assoc; reflexivity).
    apply IH. apply keep_best_kept. exact Hk.
Qed.

(** The moves the scan keeps are the moves whose score is the maximum. *)
Lemma scan_keeps_maximal (score : Z -> number) (keys : list Z) :
  keys <> [] ->
  let best := fold_left (keep_best score) keys [] in
  best <> [] /\
  forall k, In k best <->
            In k keys /\ is_max_of (score k) (map score keys).
Proof.
  intros Hne best.
  destruct (fold_keep_best_kept score keys [] []) as [[E _]|(Hb & v & Hall & Hbest)].
  - left. auto.
  - simpl in E. contradiction.
  - simpl in Hall, Hbest. fold best in Hb, Hbest.
    split; [exact Hb|].
    assert (Hv : is_max_of v (map score keys)).
    { split; [|split].
      - apply Forall_map. exact Hall.
      - intros E. destruct keys; [congruence | discriminate].
      - intros _. destruct best as [|b0 bs] eqn:Eb; [congruence|].
        assert (Hb0 : In b0 keys /\ score b0 = v)
          by (apply Hbest; left; reflexivity).
        destruct Hb0 as [Hin <-]. apply in_map. exact Hin. }
    intros k. rewrite Hbest. split.
    + intros [Hk <-]. auto.
    + intros [Hk Hmax]. split; [exact Hk|].
      apply num_leb_antisym.
      * rewrite List.Forall_forall in Hall. apply Hall, Hk.
      * destruct Hmax as (Hle & _ & _).
        rewrite List.Forall_forall in Hle. apply Hle.
        destruct Hv as (_ & _ & Hin). apply Hin.
        destruct keys; [destruct Hk | discriminate].
Qed.

(** ** The search on the store: what it writes *)

Lemma for_each_rel {A S : Type} (R : S -> S -> Prop) (l : list A)
    (body : S -> A -> result S) :
  (forall s, R s s) ->
  (forall a b c, R a b -> R b c -> R a c) ->
  (forall s x s', In x l -> body s x = Ok s' -> R s s') ->
  forall s s', for_each l s body = Ok s' -> R s s'.
Proof.
  intros Hrefl Htrans. induction l as [|x l IH]; intros Hbody s s'; simpl.
  - intros [= <-]. apply Hrefl.
  - destruct (body s x) as [s1|e] eqn:E; simpl; [|discriminate].
    intros Hrest. apply (Htrans _ s1).
    + apply (Hbody s x s1); [left; reflexivity | exact E].
    + apply IH; [|exact Hrest].
      intros s2 y s3 Hy. apply Hbody. right. exact Hy.
Qed.

Module StoreFacts.

Import Store.

Lemma extends_refl (a : store * RNode) : extends a a.
Proof. split; [exists []; rewrite app_nil_r |]; reflexivity. Qed.

Lemma extends_trans (a b c : store * RNode) :
  extends a b -> extends b c -> extends a c.
Proof.
  intros [[e1 H1] R1] [[e2 H2] R2]. split.
  - exists (e1 ++ e2). rewrite H2, H1, app_assoc. reflexivity.
  - congruence.
Qed.

Lemma read_Ok (st : store) (l : loc) (s : State) :
  read st l = Ok s <-> st !! l = Some s.
Proof.
  unfold read. destruct (st !! l); split; try discriminate; congruence.
Qed.

Section Frame.

Context `{Rules}.

(** One pass of the expansion loop: the copy is a new object at the end of
    the store, and it is the copy that is advanced. *)
Lemma expand_step (st : store) (node : RNode) (move : Z) (s : State) :
  st !! state_ref node = Some s ->
  (let* (st, state_cpy) := deepcopy_at st (state_ref node) in
   let* st := advance_state_at st state_cpy move in
   Ok (st, rset_successor node move (RNode_init state_cpy))) =
  Ok (st ++ [advance_state s move],
      rset_successor node move (RNode_init (length st))).
Proof.
  intros Hs. unfold deepcopy_at, advance_state_at.
  rewrite (proj2 (read_Ok _ _ _) Hs). simpl bind.
  assert (Hnew : (st ++ [s]) !! length st = Some s).
  { rewrite lookup_app_r by lia. rewrite Nat.sub_diag. reflexivity. }
  rewrite (proj2 (read_Ok _ _ _) Hnew). simpl bind.
  rewrite insert_app_r_alt by lia. rewrite Nat.sub_diag. reflexivity.
Qed.

Lemma expand_at_extends (st st' : store) (node node' : RNode) :
  expand_at st node = Ok (st', node') -> extends (st, node) (st', node').
Proof.
  unfold expand_at.
  destruct (read st (state_ref node)) as [s|e]; simpl; [|discriminate].
  apply (for_each_rel extends).
  - apply extends_refl.
  - apply extends_trans.
  - intros [st1 n1] move [st2 n2] _.
    destruct (st1 !! state_ref n1) as [s1|] eqn:E1.
    + rewrite (expand_step st1 n1 move s1 E1). intros [= <- <-].
      split; [eexists; reflexivity | reflexivity].
    + unfold deepcopy_at, read. rewrite E1. discriminate.
Qed.

Lemma eval_successors_at_extends
    (search : store -> RNode -> result (store * RNode * number))
    (better : number -> number -> number) (st st' : store)
    (node node' : RNode) :
  (forall st c st' c' v, search st c = Ok (st', c', v) ->
                         extends (st, c) (st', c')) ->
  eval_successors_at search better st node = Ok (st', node') ->
  extends (st, node) (st', node').
Proof.
  intros Hsearch. unfold eval_successors_at.
  apply (for_each_rel extends).
  - apply extends_refl.
  - apply extends_trans.
  - intros [st1 n1] child [st2 n2] _.
    destruct (dict_get (rsuccessors n1) child) as [c|e]; simpl;
      [|discriminate].
    destruct (search st1 c) as [[[st3 c'] v]|e] eqn:E; simpl;
      [|discriminate].
    intros [= <- <-]. apply Hsearch in E. destruct E as [Hext _].
    split; [exact Hext | reflexivity].
Qed.

(** A call of minimax leaves every state object of the store as it was:
    the store it returns is the old one followed by the new copies, and the
    node refers to the same state object as before. *)
Lemma minimax_at_extends (fuel : nat) (st st' : store) (node node' : RNode)
    (depth : Z) (max_role : string)
    (heuristic_fn : State -> string -> result Z) (v : number) :
  minimax_at fuel st node depth max_role heuristic_fn = Ok (st', node', v) ->
  extends (st, node) (st', node').
Proof.
  revert st st' node node' depth v.
  induction fuel as [|fuel IH]; intros st st' node node' depth v;
    simpl; [discriminate|].
  destruct (read st (state_ref node)) as [s|e]; simpl; [|discriminate].
  destruct ((depth =? 0) || is_terminal s).
  - destruct (heuristic_fn s max_role); simpl; [|discriminate].
    intros [= <- <- _].
    split; simpl; [exists []; rewrite app_nil_r|]; reflexivity.
  - destruct (expand_at st node) as [[st1 n1]|e] eqn:Ex; simpl;
      [|discriminate].
    apply expand_at_extends in Ex.
    destruct (read st1 (state_ref n1)) as [s1|e]; simpl; [|discriminate].
    destruct (String.eqb (turn s1) max_role).
    + destruct (eval_successors_at _ py_max st1 (rset_value n1 NegInf))
        as [[st2 n2]|e] eqn:Ev; simpl; [|discriminate].
      intros [= <- <- _].
      apply eval_successors_at_extends in Ev; [|intros; eapply IH; eauto].
      apply (extends_trans _ _ _ Ex). exact Ev.
    + destruct (eval_successors_at _ py_min st1 (rset_value n1 PosInf))
        as [[st2 n2]|e] eqn:Ev; simpl; [|discriminate].
      intros [= <- <- _].
      apply eval_successors_at_extends in Ev; [|intros; eapply IH; eauto].
      apply (extends_trans _ _ _ Ex). exact Ev.
Qed.

End Frame.

End StoreFacts.

(** ** The search on the store against the search on values *)

Module StoreSimulation.

Import Store StoreFacts.

Lemma RNode_nested_ind (P : RNode -> Prop) :
  (forall l v d, Forall (fun kc => P (snd kc)) d -> P (mkRNode l v d)) ->
  forall n, P n.
Proof.
  intros Hstep. fix IH 1. intros [l v d]. apply Hstep.
  induction d as [|[k c] d IHd]; constructor; [apply IH | exact IHd].
Qed.

Lemma reify_unfold (st : store) (l : loc) (v : number) (d : dict RNode) :
  reify st (mkRNode l v d) =
  (s ← st !! l;
   d' ← mapM (fun kc => c' ← reify st (snd kc); Some (fst kc, c')) d;
   Some (mkNode s v d')).
Proof.
  simpl. destruct (st !! l) as [s|]; simpl; [|reflexivity].
  f_equal. induction d as [|[k c] d IHd]; simpl; [reflexivity|].
  destruct (reify st c) as [c'|]; simpl; [|reflexivity].
  rewrite IHd. reflexivity.
Qed.

Lemma reify_app (st ext : store) (n : RNode) (t : MinimaxNode) :
  reify st n = Some t -> reify (st ++ ext) n = Some t.
Proof.
  revert t. induction n as [l v d IHd] using RNode_nested_ind. intros t.
  rewrite !reify_unfold.
  destruct (st !! l) as [s|] eqn:El; simpl; [|discriminate].
  rewrite (lookup_app_l_Some _ _ _ _ El). simpl.
  assert (Hd : forall d', mapM (fun kc => c' ← reify st (snd kc);
                                          Some (fst kc, c')) d = Some d' ->
               mapM (fun kc => c' ← reify (st ++ ext) (snd kc);
                               Some (fst kc, c')) d = Some d').
  { induction IHd as [|[k c] d Hc _ IH]; intros d'; simpl; [auto|].
    destruct (reify st c) as [c'|] eqn:Ec; simpl; [|discriminate].
    simpl in Hc. rewrite (Hc c' Ec). simpl.
    destruct (mapM _ d) as [d1|]; simpl; [|discriminate].
    rewrite (IH d1 eq_refl). simpl. auto. }
  destruct (mapM _ d) as [d1|]; simpl; [|discriminate].
  rewrite (Hd d1 eq_refl). simpl. auto.
Qed.

Section Simulation.

Context `{Rules}.

Lemma eval_successors_at_from
    (search : store -> RNode -> result (store * RNode * number))
    (better : number -> number -> number) (l : loc)
    (todo done : dict RNode) (v : number) (st : store) :
  List.NoDup (dict_keys (done ++ todo)) ->
  for_each (dict_keys todo) (st, mkRNode l v (done ++ todo))
    (fun '(st, node) child =>
      let* c := dict_get (rsuccessors node) child in
      let* (st, c', x) := search st c in
      Ok (st, rset_value (rset_successor node child c')
                         (better (rvalue node) x))) =
  (let* (st', rs) := eval_list_at search st todo in
   Ok (st', mkRNode l (fold_left better (map snd rs) v)
                    (done ++ map fst rs))).
Proof.
  revert done v st. induction todo as [|[k c] todo IH]; intros done v st Hnd.
  - simpl. reflexivity.
  - simpl. unfold dict_keys in Hnd. rewrite map_app in Hnd. simpl in Hnd.
    assert (Hk : ~ In k (dict_keys done)).
    { apply NoDup_remove_2 in Hnd. rewrite in_app_iff in Hnd. tauto. }
    rewrite dict_get_app_fresh by exact Hk. simpl.
    destruct (search st c) as [[[st1 c'] x]|e]; simpl; [|reflexivity].
    unfold rset_successor, rset_value. simpl.
    rewrite dict_set_app_fresh by exact Hk.
    replace (done ++ (k, c') :: todo) with ((done ++ [(k, c')]) ++ todo)
      by (rewrite <- app_assoc; reflexivity).
    rewrite IH.
    + destruct (eval_list_at search st1 todo) as [[st2 rs]|e]; simpl;
        [|reflexivity].
      rewrite <- app_assoc. reflexivity.
    + unfold dict_keys. rewrite !map_app. simpl. rewrite <- app_assoc.
      exact Hnd.
Qed.

Lemma eval_successors_at_eq
    (search : store -> RNode -> result (store * RNode * number))
    (better : number -> number -> number) (l : loc) (d : dict RNode)
    (v : number) (st : store) :
  List.NoDup (dict_keys d) ->
  eval_successors_at search better st (mkRNode l v d) =
  (let* (st', rs) := eval_list_at search st d in
   Ok (st', mkRNode l (fold_left better (map snd rs) v) (map fst rs))).
Proof.
  intros Hnd. unfold eval_successors_at. simpl rsuccessors.
  apply (eval_successors_at_from search better l d [] v st). exact Hnd.
Qed.

Lemma fresh_in_app (st ext : store) (s : State) (keys : list Z)
    (rd : dict RNode) :
  Forall2 (fresh_in st s) keys rd ->
  Forall2 (fresh_in (st ++ ext) s) keys rd.
Proof.
  intros HF. eapply Forall2_impl; [exact HF|].
  intros m rc (Hk & lm & Hrc & Hl). split; [exact Hk|].
  exists lm. split; [exact Hrc|]. apply lookup_app_l_Some. exact Hl.
Qed.

Lemma fresh_in_keys (st : store) (s : State) (keys : list Z)
    (rd : dict RNode) :
  Forall2 (fresh_in st s) keys rd -> dict_keys rd = keys.
Proof.
  induction 1 as [|m rc keys rd [Hk _] _ IH]; simpl; [reflexivity|].
  rewrite Hk. f_equal. exact IH.
Qed.

Lemma dict_set_fresh_in (st : store) (s : State) (keys : list Z)
    (rd : dict RNode) (m : Z) (lm : loc) :
  Forall2 (fresh_in st s) keys rd ->
  st !! lm = Some (advance_state s m) ->
  Forall2 (fresh_in st s)
    (if existsb (Z.eqb m) keys then keys else keys ++ [m])
    (dict_set rd m (RNode_init lm)).
Proof.
  intros HF Hl. induction HF as [|k [k' c] keys rd Hh Ht IH]; simpl.
  - constructor; [|constructor]. split; [reflexivity|]. eauto.
  - destruct Hh as (Hk & Hc). simpl in Hk. subst k'.
    rewrite (Z.eqb_sym m k).
    destruct (Z.eqb_spec k m) as [->|Hne]; simpl.
    + constructor; [|exact Ht]. split; [reflexivity|]. eauto.
    + destruct (existsb (Z.eqb m) keys); simpl;
        (constructor; [split; [reflexivity | exact Hc] | exact IH]).
Qed.

Lemma expand_at_from (l : loc) (v : number) (s : State) (moves : list Z)
    (st : store) (keys : list Z) (rd : dict RNode) :
  st !! l = Some s ->
  Forall2 (fresh_in st s) keys rd ->
  exists ext rd',
    for_each moves (st, mkRNode l v rd) (fun '(st, node) move =>
      let* (st, state_cpy) := deepcopy_at st (state_ref node) in
      let* st := advance_state_at st state_cpy move in
      Ok (st, rset_successor node move (RNode_init state_cpy))) =
    Ok (st ++ ext, mkRNode l v rd') /\
    Forall2 (fresh_in (st ++ ext) s)
      (fold_left (fun seen m => if existsb (Z.eqb m) seen then seen
                                else seen ++ [m]) moves keys) rd'.
Proof.
  revert st keys rd. induction moves as [|m moves IH]; intros st keys rd Hl HF.
  - exists [], rd. simpl. rewrite app_nil_r. auto.
  - simpl for_each. rewrite (expand_step st (mkRNode l v rd) m s Hl).
    simpl bind. unfold rset_successor. simpl.
    destruct (IH (st ++ [advance_state s m])
                 (if existsb (Z.eqb m) keys then keys else keys ++ [m])
                 (dict_set rd m (RNode_init (length st))))
      as (ext & rd' & Hrun & HF').
    + apply lookup_app_l_Some. exact Hl.
    + apply dict_set_fresh_in.
      * apply fresh_in_app. exact HF.
      * rewrite lookup_app_r by lia. rewrite Nat.sub_diag. reflexivity.
    + exists ([advance_state s m] ++ ext), rd'. rewrite app_assoc.
      split; [exact Hrun | exact HF'].
Qed.

Lemma eval_list_simulates
    (psearch : MinimaxNode -> result (MinimaxNode * number))
    (rsearch : store -> RNode -> result (store * RNode * number))
    (s : State) :
  (forall st l s', st !! l = Some s' ->
     match psearch (MinimaxNode_init s') with
     | Ok (n', v) =>
         exists ext rn', rsearch st (RNode_init l) = Ok (st ++ ext, rn', v)
                         /\ reify (st ++ ext) rn' = Some n'
     | Raise e => rsearch st (RNode_init l) = Raise e
     end) ->
  forall keys rd st,
  Forall2 (fresh_in st s) keys rd ->
  match eval_list psearch
          (map (fun m => (m, MinimaxNode_init (advance_state s m))) keys) with
  | Ok rs =>
      exists ext rrs, eval_list_at rsearch st rd = Ok (st ++ ext, rrs)
                      /\ Forall2 (same_result (st ++ ext)) rs rrs
  | Raise e => eval_list_at rsearch st rd = Raise e
  end.
Proof.
  intros Hsim keys.
  induction keys as [|k keys IH]; intros rd st HF.
  - inversion HF; subst. simpl. exists [], []. rewrite app_nil_r.
    split; [reflexivity | constructor].
  - inversion HF as [|? rc ? rd' Hh Ht]; subst.
    destruct rc as [k' c]. destruct Hh as (Hk & lm & Hc & Hl).
    simpl in Hk, Hc. subst k' c. simpl.
    specialize (Hsim st lm (advance_state s k) Hl).
    destruct (psearch (MinimaxNode_init (advance_state s k)))
      as [[n' v]|e]; simpl.
    + destruct Hsim as (e1 & rn' & Hrun & Hre). rewrite Hrun. simpl.
      specialize (IH rd' (st ++ e1) (fresh_in_app _ e1 _ _ _ Ht)).
      destruct (eval_list psearch _) as [rs|e]; simpl.
      * destruct IH as (e2 & rrs & Hrun2 & HF2). rewrite Hrun2. simpl.
        exists (e1 ++ e2), ((k, rn', v) :: rrs). rewrite app_assoc.
        split; [reflexivity|]. constructor; [|exact HF2].
        split; [reflexivity|]. split; [reflexivity|]. simpl.
        apply reify_app. exact Hre.
      * rewrite IH. reflexivity.
    + rewrite Hsim. reflexivity.
Qed.

Lemma reify_results (st : store) (l : loc) (s : State) (v : number)
    (rs : list (Z * MinimaxNode * number))
    (rrs : list (Z * RNode * number)) :
  st !! l = Some s ->
  Forall2 (same_result st) rs rrs ->
  map snd rrs = map snd rs /\
  reify st (mkRNode l v (map fst rrs)) = Some (mkNode s v (map fst rs)).
Proof.
  intros Hl HF. rewrite reify_unfold, Hl. simpl.
  induction HF as [|[[k n] x] [[k' rn] x'] rs rrs (Hk & Hx & Hre) _ IH];
    simpl; [auto|].
  simpl in Hk, Hx, Hre. subst k' x'. destruct IH as [IHv IHr].
  split; [f_equal; exact IHv|].
  rewrite Hre. simpl.
  destruct (mapM _ (map fst rrs)) as [d'|]; simpl in *; [|discriminate].
  injection IHr as <-. reflexivity.
Qed.

(** The search on the store computes what the search on values computes:
    it returns when that one returns, with a tree that stands for the same
    tree of values, and raises when that one raises. *)
Lemma minimax_at_simulates (max_role : string)
    (heuristic_fn : State -> string -> result Z) :
  forall (fuel : nat) (st : store) (l : loc) (s : State) (depth : Z),
  st !! l = Some s ->
  match minimax fuel (MinimaxNode_init s) depth max_role heuristic_fn with
  | Ok (n', v) =>
      exists ext rn',
        minimax_at fuel st (RNode_init l) depth max_role heuristic_fn =
        Ok (st ++ ext, rn', v) /\
        reify (st ++ ext) rn' = Some n'
  | Raise e =>
      minimax_at fuel st (RNode_init l) depth max_role heuristic_fn = Raise e
  end.
Proof.
  induction fuel as [|fuel IH]; intros st l s depth Hl; [reflexivity|].
  remember (minimax_at (S fuel) st (RNode_init l) depth max_role
                       heuristic_fn) as R eqn:HR.
  unfold RNode_init in HR. simpl minimax_at in HR.
  rewrite (proj2 (read_Ok _ _ _) Hl) in HR. simpl bind in HR.
  destruct ((depth =? 0) || is_terminal s) eqn:Eb.
  - rewrite minimax_base
      by (apply orb_true_iff in Eb; destruct Eb as [E|E];
          [left; apply Z.eqb_eq, E | right; exact E]).
    simpl state. simpl successors.
    destruct (heuristic_fn s max_role) as [z|e]; simpl in *;
      [|exact HR].
    exists [], (mkRNode l (Num z) []). rewrite app_nil_r.
    split; [exact HR|]. rewrite reify_unfold, Hl. reflexivity.
  - apply orb_false_iff in Eb. destruct Eb as [Ed Et].
    rewrite minimax_expand by (try apply Z.eqb_neq; assumption).
    unfold expand_at in HR. simpl state_ref in HR.
    rewrite (proj2 (read_Ok _ _ _) Hl) in HR. simpl bind in HR.
    destruct (expand_at_from l (Num 0) s (get_legal_moves s) st [] [] Hl)
      as (e0 & rd & Hrun & HF); [constructor|].
    rewrite Hrun in HR. simpl bind in HR. clear Hrun.
    fold (uniq (get_legal_moves s)) in HF.
    assert (Hl0 : (st ++ e0) !! l = Some s)
      by (apply lookup_app_l_Some; exact Hl).
    simpl state_ref in HR. rewrite (proj2 (read_Ok _ _ _) Hl0) in HR.
    simpl bind in HR.
    assert (Hnd : List.NoDup (dict_keys rd)).
    { rewrite (fresh_in_keys _ _ _ _ HF). apply uniq_NoDup. }
    change (rset_value (mkRNode l (Num 0) rd) NegInf)
      with (mkRNode l NegInf rd) in HR.
    change (rset_value (mkRNode l (Num 0) rd) PosInf)
      with (mkRNode l PosInf rd) in HR.
    rewrite !(eval_successors_at_eq _ _ l rd _ (st ++ e0) Hnd) in HR.
    pose proof (eval_list_simulates
      (fun c => minimax fuel c (depth - 1) max_role heuristic_fn)
      (fun st c => minimax_at fuel st c (depth - 1) max_role heuristic_fn)
      s (fun st l s' Hs => IH st l s' (depth - 1) Hs)
      (uniq (get_legal_moves s)) rd (st ++ e0) HF) as Hsim.
    fold (fresh_children s) in Hsim.
    destruct (eval_list _ (fresh_children s)) as [rs|e]; simpl bind.
    + destruct Hsim as (e1 & rrs & Hrun & HRes).
      assert (Hl1 : ((st ++ e0) ++ e1) !! l = Some s)
        by (apply lookup_app_l_Some; exact Hl0).
      rewrite Hrun in HR. simpl bind in HR. simpl rvalue in HR.
      exists (e0 ++ e1). rewrite app_assoc.
      destruct (reify_results _ l s
                  (fold_left py_max (map snd rs) NegInf) rs rrs Hl1 HRes)
        as [Hv Hr1].
      destruct (reify_results _ l s
                  (fold_left py_min (map snd rs) PosInf) rs rrs Hl1 HRes)
        as [_ Hr2].
      rewrite Hv in HR.
      destruct (String.eqb (turn s) max_role); eexists;
        (split; [exact HR | assumption]).
    + rewrite Hsim in HR. simpl bind in HR.
      destruct (String.eqb (turn s) max_role); exact HR.
Qed.

End Simulation.

End StoreSimulation.

(** ** Nodes of a tree *)

Lemma MinimaxNode_nested_ind (P : MinimaxNode -> Prop) :
  (forall s v d, Forall (fun kc => P (snd kc)) d -> P (mkNode s v d)) ->
  forall n, P n.
Proof.
  intros Hstep. fix IH 1. intros [s v d]. apply Hstep.
  induction d as [|[k c] d IHd]; constructor; [apply IH | exact IHd].
Qed.

Lemma all_nodes_impl (p q : MinimaxNode -> bool) (n : MinimaxNode) :
  (forall x, p x = true -> q x = true) ->
  all_nodes p n = true -> all_nodes q n = true.
Proof.
  intros Hpq. induction n as [s v d IHd] using MinimaxNode_nested_ind.
  rewrite !all_nodes_unfold, !andb_true_iff, !forallb_forall.
  intros [Hp Hd]. split; [apply Hpq, Hp|].
  intros kc Hin. rewrite List.Forall_forall in IHd.
  apply IHd; [exact Hin | apply Hd, Hin].
Qed.

(** * The claims *)

Section Claims.

Context `{Rules}.

(** C1. On a node whose state is not terminal, at a depth above 0,
    minimax returns the value it stores in the node: the maximum of the
    values of the children when it is the maximizing role's turn, the minimum
    otherwise.  The successors are the legal moves, each once, and the child
    under a move is what minimax returns at depth - 1 on a new node of the
    state after that move: no child is left out. *)
Theorem minimax_max_min_over_children (fuel : nat) (s : State) (depth : Z)
    (max_role : string) (h : State -> string -> Z) :
  is_terminal s = false ->
  0 < depth <= Z.of_nat fuel ->
  let heuristic_fn := fun s r => Ok (h s r) in
  exists node',
    minimax (S fuel) (MinimaxNode_init s) depth max_role heuristic_fn
      = Ok (node', value node') /\
    state node' = s /\
    List.NoDup (dict_keys (successors node')) /\
    (forall m, In m (dict_keys (successors node')) <->
               In m (get_legal_moves s)) /\
    (forall m c, In (m, c) (successors node') ->
       minimax fuel (MinimaxNode_init (advance_state s m)) (depth - 1)
               max_role heuristic_fn = Ok (c, value c)) /\
    (String.eqb (turn s) max_role = true ->
       is_max_of (value node') (child_values node')) /\
    (String.eqb (turn s) max_role = false ->
       is_min_of (value node') (child_values node')).
Proof.
  intros Ht Hd heuristic_fn.
  exists (search_tree h max_role (Z.to_nat depth) s).
  split; [apply minimax_total; lia|].
  destruct (Z.to_nat depth) as [|n] eqn:En; [lia|].
  simpl search_tree. rewrite Ht.
  set (kids := map (fun m => (m, search_tree h max_role n (advance_state s m)))
                   (uniq (get_legal_moves s))).
  assert (Hkeys : dict_keys kids = uniq (get_legal_moves s)).
  { unfold kids, dict_keys. rewrite map_map. simpl. apply map_id. }
  simpl state. simpl successors. simpl value. unfold child_values.
  simpl successors.
  split; [reflexivity|].
  split; [rewrite Hkeys; apply uniq_NoDup|].
  split; [intros m; rewrite Hkeys; apply uniq_In|].
  split.
  - intros m c Hin. unfold kids in Hin. apply in_map_iff in Hin.
    destruct Hin as (m' & [= <- <-] & _).
    replace n with (Z.to_nat (depth - 1)) by lia.
    apply minimax_total. lia.
  - split; intros ->.
    + apply fold_max_is_max.
    + apply fold_min_is_min.
Qed.

(** C2. At a terminal state, whatever the depth, and at depth 0, whatever
    the state, minimax on a new node returns what the heuristic returns for
    the state and the maximizing role, stores it as the value of the node and
    leaves the successors empty. *)
Theorem minimax_base_case (fuel : nat) (s : State) (depth : Z)
    (max_role : string) (heuristic_fn : State -> string -> result Z) :
  is_terminal s = true \/ depth = 0 ->
  minimax (S fuel) (MinimaxNode_init s) depth max_role heuristic_fn =
  (let* v := heuristic_fn s max_role in
   Ok (mkNode s (Num v) [], Num v)).
Proof.
  intros Hb. rewrite minimax_base by (simpl; tauto). reflexivity.
Qed.

(** C4, as amended. A negative depth is not rejected.  It never becomes 0,
    so only terminal states stop the recursion: where every line of play
    ends within [n] plies, minimax returns the tree and the value of the
    complete search. *)
Theorem minimax_negative_depth (fuel n : nat) (s : State) (depth : Z)
    (max_role : string) (h : State -> string -> Z) :
  depth < 0 ->
  ends_within n s = true ->
  (n < fuel)%nat ->
  minimax fuel (MinimaxNode_init s) depth max_role (fun s r => Ok (h s r)) =
  Ok (search_tree h max_role n s, value (search_tree h max_role n s)) /\
  minimax fuel (MinimaxNode_init s) depth max_role (fun s r => Ok (h s r)) =
  minimax fuel (MinimaxNode_init s) (Z.of_nat n) max_role
          (fun s r => Ok (h s r)).
Proof.
  intros Hd He Hf.
  assert (E : minimax fuel (MinimaxNode_init s) depth max_role
                      (fun s r => Ok (h s r)) =
              Ok (search_tree h max_role n s,
                  value (search_tree h max_role n s))).
  { apply (minimax_search_tree (fun _ => true)); auto using within_true. }
  split; [exact E|]. rewrite E. symmetry.
  rewrite <- (Nat2Z.id n) at 2 3. apply minimax_total. lia.
Qed.

(** C8. Where no state within [depth] plies is terminal, and each of them
    has a legal move as the position abstraction promises, minimax with
    [zero_heur] returns 0 and every node of the tree it builds has the
    value 0. *)
Theorem zero_heur_search_is_zero (fuel : nat) (s : State) (depth : Z)
    (max_role : string) :
  0 <= depth < Z.of_nat fuel ->
  within not_terminal (Z.to_nat depth) s = true ->
  within can_move (Z.to_nat depth) s = true ->
  exists node',
    minimax fuel (MinimaxNode_init s) depth max_role zero_heur
      = Ok (node', Num 0) /\
    all_nodes (fun n => num_eqb (value n) (Num 0)) node' = true.
Proof.
  intros Hd Hnt Hcm.
  assert (Hw : within (fun s => not_terminal s && can_move s)
                      (Z.to_nat depth) s = true).
  { clear Hd. revert s Hnt Hcm.
    induction (Z.to_nat depth) as [|n IH]; intros s; simpl.
    - rewrite !andb_true_r. intros -> ->. reflexivity.
    - rewrite !andb_true_iff, !orb_true_iff, !forallb_forall.
      intros [Hn Hnk] [Hc Hck]. split; [tauto|].
      unfold not_terminal in Hn. apply negb_true_iff in Hn.
      right. intros m Hm. apply IH.
      + destruct Hnk as [?|Hnk]; [congruence | auto].
      + destruct Hck as [?|Hck]; [congruence | auto]. }
  set (T := search_tree (fun _ _ => 0) max_role (Z.to_nat depth) s).
  assert (Hall : all_nodes (value_in 0 0) T = true).
  { apply (search_tree_bounded not_terminal); [lia | exact Hw]. }
  exists T. split.
  - assert (Hv : value T = Num 0).
    { destruct T as [ts tv td]. rewrite all_nodes_unfold in Hall.
      apply andb_true_iff in Hall. destruct Hall as [Hv _].
      unfold value_in in Hv. simpl in *. destruct tv; try discriminate.
      apply andb_true_iff in Hv. rewrite !Z.leb_le in Hv. f_equal. lia. }
    rewrite <- Hv.
    apply (minimax_search_tree not_terminal zero_heur (fun _ _ => 0)).
    + intros s' Hs'. rewrite zero_heur_total. unfold not_terminal in Hs'.
      apply negb_true_iff in Hs'. rewrite Hs'. reflexivity.
    + lia.
    + left. lia.
    + exact Hnt.
  - eapply all_nodes_impl; [|exact Hall].
    intros [xs xv xd]. unfold value_in. simpl.
    destruct xv; try discriminate. rewrite andb_true_iff, !Z.leb_le.
    intros Hz. apply Z.eqb_eq. lia.
Qed.

End Claims.

(** C3. At a terminal state each of the three heuristics returns 0 for a
    draw (the winner is the empty string), 100 when the winner is the
    maximizing role and -100 when the winner is the other role; nothing of
    the board is scored. *)
Theorem heuristics_terminal_score (s : State) (max_role : string) :
  is_terminal s = true ->
  forall heuristic_fn,
  In heuristic_fn [zero_heur; three_line_heur; my_heuristic] ->
  (winner s = EmptyString -> heuristic_fn s max_role = Ok 0) /\
  (winner s <> EmptyString -> winner s = max_role ->
     heuristic_fn s max_role = Ok 100) /\
  (winner s <> EmptyString -> winner s <> max_role ->
     heuristic_fn s max_role = Ok (-100)).
Proof.
  intros Ht heuristic_fn Hin.
  destruct (terminal_score s max_role Ht) as (Hz & Ht3 & Hm).
  assert (E : heuristic_fn s max_role =
              Ok (if String.eqb (winner s) EmptyString then 0
                  else if String.eqb (winner s) max_role then 100
                       else -100)).
  { destruct Hin as [<-|[<-|[<-|[]]]]; assumption. }
  rewrite E. split; [|split].
  - intros ->. reflexivity.
  - intros Hne Hw. apply String.eqb_neq in Hne. rewrite Hne.
    apply String.eqb_eq in Hw. rewrite Hw. reflexivity.
  - intros Hne Hw. apply String.eqb_neq in Hne, Hw. rewrite Hne, Hw.
    reflexivity.
Qed.

(** C6, as amended. On a non-terminal state with a well-formed board
    [three_line_heur] returns the signed count, over the cells and the four
    directions, of the occupied cells from which three equal marks lie in a
    line with the third of them on the board: +1 where the mark is the
    maximizing role, -1 otherwise.  No fourth cell is looked at. *)
Theorem three_line_heur_signed_count (cols rows : Z) (s : State)
    (max_role : string) :
  well_formed cols rows s = true ->
  is_terminal s = false ->
  three_line_heur s max_role = Ok (three_line_count s max_role).
Proof. apply three_line_heur_count. Qed.

Section PlayClaims.

Context `{Rules}.

Lemma randint_index (best : list Z) (entropy : Z) :
  best <> [] ->
  exists k, randint 0 (len best - 1) entropy = Ok k /\ 0 <= k < len best.
Proof.
  intros Hne. unfold randint.
  assert (0 < len best) by (unfold len; destruct best; simpl; [congruence | lia]).
  destruct (Z.ltb_spec (len best - 1) 0) as [|_]; [lia|].
  eexists. split; [reflexivity|].
  replace (len best - 1 - 0 + 1) with (len best) by lia.
  pose proof (Z.mod_pos_bound entropy (len best)). lia.
Qed.

(** C5. For a state that is not terminal and has a legal move, and a
    player with a depth of at least 1, [play] returns a legal move whose
    child of the root has the greatest value among the children of the root,
    and every move whose child has that value is returned for some draw of
    the random generator. *)
Theorem play_returns_best_move (fuel : nat) (my_role : string) (my_depth : Z)
    (h : State -> string -> Z) (display : bool) (s : State) :
  is_terminal s = false ->
  get_legal_moves s <> [] ->
  1 <= my_depth < Z.of_nat fuel ->
  let self := mkPlayer my_role my_depth (fun s r => Ok (h s r)) display in
  exists root v,
    minimax fuel (MinimaxNode_init s) my_depth my_role (heur self) = Ok (root, v) /\
    (forall entropy, exists m c,
       play fuel entropy self s = Ok m /\
       In m (get_legal_moves s) /\
       dict_get (successors root) m = Ok c /\
       is_max_of (value c) (child_values root)) /\
    (forall m c,
       dict_get (successors root) m = Ok c ->
       is_max_of (value c) (child_values root) ->
       exists entropy, play fuel entropy self s = Ok m).
Proof.
  intros Ht Hmoves Hd self.
  set (root := search_tree h my_role (Z.to_nat my_depth) s).
  assert (Hrun : minimax fuel (MinimaxNode_init s) my_depth my_role (heur self)
                 = Ok (root, value root))
    by (apply minimax_total; lia).
  exists root, (value root). split; [exact Hrun|].
  assert (Hkeys : dict_keys (successors root) = uniq (get_legal_moves s)).
  { unfold root. destruct (Z.to_nat my_depth) as [|n] eqn:En; [lia|].
    simpl search_tree. rewrite Ht. simpl successors.
    unfold dict_keys. rewrite map_map. simpl. apply map_id. }
  assert (Hnd : List.NoDup (dict_keys (successors root)))
    by (rewrite Hkeys; apply uniq_NoDup).
  assert (Hne : dict_keys (successors root) <> []).
  { rewrite Hkeys. destruct (get_legal_moves s) as [|m ms] eqn:Em;
      [congruence|].
    assert (Hin : In m (uniq (m :: ms))) by (apply uniq_In; left; reflexivity).
    destruct (uniq (m :: ms)); [destruct Hin | discriminate]. }
  destruct (scan_keeps_maximal (score_of root) _ Hne) as [Hbne Hbest].
  set (best := fold_left (keep_best (score_of root))
                         (dict_keys (successors root)) []) in *.
  rewrite (score_of_values root Hnd) in Hbest.
  assert (Hplay : forall entropy,
            play fuel entropy self s =
            (let* k := randint 0 (len best - 1) entropy in py_index best k)).
  { intros entropy. unfold play. fold self.
    change (depth self) with my_depth.
    change (role self) with my_role.
    rewrite Hrun. simpl bind. rewrite scan_best_eq. reflexivity. }
  split.
  - intros entropy. rewrite Hplay.
    destruct (randint_index best entropy Hbne) as (k & Ek & Hk).
    rewrite Ek. simpl bind. rewrite (py_index_nth best k 0) by exact Hk.
    assert (Hin : In (nth (Z.to_nat k) best 0) best)
      by (apply nth_In; unfold len in Hk; lia).
    apply Hbest in Hin. destruct Hin as [Hin Hmax].
    destruct (dict_get_In _ _ Hin) as (c & Ec & _).
    exists (nth (Z.to_nat k) best 0), c.
    split; [reflexivity|]. split.
    + rewrite Hkeys in Hin. apply (proj1 (uniq_In _ _)) in Hin. exact Hin.
    + split; [exact Ec|]. unfold score_of in Hmax. rewrite Ec in Hmax.
      exact Hmax.
  - intros m c Ec Hmax.
    assert (Hin : In m best).
    { apply Hbest. split.
      - apply dict_get_Ok_In in Ec. unfold dict_keys.
        apply in_map_iff. exists (m, c). auto.
      - unfold score_of. rewrite Ec. exact Hmax. }
    destruct (In_nth best m 0 Hin) as (i & Hi & Enth).
    exists (Z.of_nat i). rewrite Hplay. unfold randint.
    destruct (Z.ltb_spec (len best - 1) 0) as [Hlt|_];
      [unfold len in Hlt; lia|].
    replace (0 + Z.of_nat i mod (len best - 1 - 0 + 1)) with (Z.of_nat i)
      by (replace (len best - 1 - 0 + 1) with (len best) by lia;
          rewrite Z.mod_small; unfold len; lia).
    simpl bind. rewrite (py_index_nth best (Z.of_nat i) 0)
      by (unfold len; lia).
    rewrite Nat2Z.id, Enth. reflexivity.
Qed.

(** C10. At a terminal state, and at any state when the player's depth is
    0, [play] returns no move: the root gets no successors, no move is
    collected, and choosing among none raises ValueError (or the heuristic's
    own exception, if it raises one). *)
Theorem play_fails_without_successors (fuel : nat) (entropy : Z)
    (self : MinimaxPlayer) (s : State) :
  is_terminal s = true \/ depth self = 0 ->
  (forall z, heur self s (role self) = Ok z ->
     exists root,
       minimax (S fuel) (MinimaxNode_init s) (depth self) (role self)
               (heur self) = Ok (root, Num z) /\
       successors root = [] /\
       scan_best root = Ok [] /\
       randint 0 (len (@nil Z) - 1) entropy = Raise ValueError /\
       play (S fuel) entropy self s = Raise ValueError) /\
  (forall e, heur self s (role self) = Raise e ->
     play (S fuel) entropy self s = Raise e) /\
  (forall m, play (S fuel) entropy self s <> Ok m).
Proof.
  intros Hb.
  assert (E : minimax (S fuel) (MinimaxNode_init s) (depth self) (role self)
                      (heur self) =
              (let* v := heur self s (role self) in
               Ok (mkNode s (Num v) [], Num v))).
  { rewrite minimax_base by (simpl; tauto). reflexivity. }
  assert (Hok : forall z, heur self s (role self) = Ok z ->
                  play (S fuel) entropy self s = Raise ValueError).
  { intros z Hz. unfold play. rewrite E, Hz. reflexivity. }
  assert (Hraise : forall e, heur self s (role self) = Raise e ->
                     play (S fuel) entropy self s = Raise e).
  { intros e He. unfold play. rewrite E, He. reflexivity. }
  split; [|split].
  - intros z Hz. exists (mkNode s (Num z) []).
    rewrite E, Hz. split; [reflexivity|]. split; [reflexivity|].
    split; [reflexivity|]. split; [reflexivity|]. apply (Hok z Hz).
  - exact Hraise.
  - intros m. destruct (heur self s (role self)) as [z|e] eqn:Eh.
    + rewrite (Hok z eq_refl). discriminate.
    + rewrite (Hraise e eq_refl). discriminate.
Qed.

End PlayClaims.

Section BoundClaims.

Context `{Rules}.

(** A heuristic that stays in [lo .. hi] on the states the search meets
    gives a search whose values all stay in [lo .. hi]. *)
Lemma minimax_bounded (p : State -> bool)
    (heuristic_fn : State -> string -> result Z) (h : State -> string -> Z)
    (max_role : string) (lo hi : Z) :
  (forall s, p s = true ->
     heuristic_fn s max_role = Ok (h s max_role) /\
     lo <= h s max_role <= hi) ->
  forall (fuel : nat) (s : State) (depth : Z),
  0 <= depth < Z.of_nat fuel ->
  within (fun s => p s && can_move s) (Z.to_nat depth) s = true ->
  exists node' v,
    minimax fuel (MinimaxNode_init s) depth max_role heuristic_fn
      = Ok (node', Num v) /\
    lo <= v <= hi /\
    all_nodes (value_in lo hi) node' = true.
Proof.
  intros Hh fuel s depth Hd Hw.
  set (T := search_tree h max_role (Z.to_nat depth) s).
  assert (Hall : all_nodes (value_in lo hi) T = true).
  { apply (search_tree_bounded p); [|exact Hw]. intros s' Hs'.
    apply Hh, Hs'. }
  assert (Hv : exists v, value T = Num v /\ lo <= v <= hi).
  { destruct T as [ts tv td]. rewrite all_nodes_unfold in Hall.
    apply andb_true_iff in Hall. destruct Hall as [Hv _].
    unfold value_in in Hv. simpl in *. destruct tv; try discriminate.
    apply andb_true_iff in Hv. rewrite !Z.leb_le in Hv. eauto. }
  destruct Hv as (v & Ev & Hv). exists T, v. rewrite <- Ev.
  split; [|split; [exact Hv | exact Hall]].
  apply (minimax_search_tree p heuristic_fn h).
  - intros s' Hs'. apply Hh, Hs'.
  - lia.
  - left. lia.
  - eapply within_mono; [|exact Hw]. simpl. intros s' E.
    apply andb_true_iff in E. tauto.
Qed.


End BoundClaims.

Section StoreClaims.

Context `{Rules}.

Import Store StoreFacts.

(** C9. When a call of minimax returns, every state object that existed
    before the call holds what it held: the one the node wraps and any other.
    The node still refers to the same state object; the call has written to
    new copies only, so besides them only the value and the successors of
    nodes have changed. *)
Theorem minimax_leaves_states_unchanged (fuel : nat) (st st' : list State)
    (node node' : RNode) (depth : Z) (max_role : string)
    (heuristic_fn : State -> string -> result Z) (v : number) :
  minimax_at fuel st node depth max_role heuristic_fn = Ok (st', node', v) ->
  state_ref node' = state_ref node /\
  (forall l s, st !! l = Some s -> st' !! l = Some s) /\
  (exists copies, st' = st ++ copies).
Proof.
  intros Hrun. apply minimax_at_extends in Hrun.
  destruct Hrun as [[ext Hext] Href]. simpl in Hext, Href.
  split; [exact Href|]. split.
  - intros l s Hl. rewrite Hext. apply lookup_app_l_Some. exact Hl.
  - exists ext. exact Hext.
Qed.

End StoreClaims.

(** * Further properties of the search *)

Lemma is_max_of_unique (v v' : number) (vs : list number) :
  is_max_of v vs -> is_max_of v' vs -> v = v'.
Proof.
  intros (Hle & Hnil & Hin) (Hle' & Hnil' & Hin').
  destruct vs as [|x vs].
  - rewrite Hnil, Hnil' by reflexivity. reflexivity.
  - rewrite List.Forall_forall in Hle, Hle'.
    apply num_leb_antisym.
    + apply Hle', Hin. discriminate.
    + apply Hle, Hin'. discriminate.
Qed.

Lemma is_min_of_unique (v v' : number) (vs : list number) :
  is_min_of v vs -> is_min_of v' vs -> v = v'.
Proof.
  intros (Hle & Hnil & Hin) (Hle' & Hnil' & Hin').
  destruct vs as [|x vs].
  - rewrite Hnil, Hnil' by reflexivity. reflexivity.
  - rewrite List.Forall_forall in Hle, Hle'.
    apply num_leb_antisym.
    + apply Hle, Hin'. discriminate.
    + apply Hle', Hin. discriminate.
Qed.

Lemma is_max_of_same (v : number) (vs vs' : list number) :
  (forall x, In x vs <-> In x vs') -> is_max_of v vs -> is_max_of v vs'.
Proof.
  intros Hsame (Hle & Hnil & Hin).
  rewrite List.Forall_forall in Hle.
  split; [|split].
  - apply List.Forall_forall. intros x Hx. apply Hle, Hsame, Hx.
  - intros ->. apply Hnil. destruct vs as [|x vs]; [reflexivity|].
    exfalso. apply (proj1 (Hsame x)). left. reflexivity.
  - intros Hne. apply Hsame, Hin. intros ->.
    destruct vs' as [|x vs']; [congruence|].
    apply (proj2 (Hsame x)). left. reflexivity.
Qed.

Lemma is_min_of_same (v : number) (vs vs' : list number) :
  (forall x, In x vs <-> In x vs') -> is_min_of v vs -> is_min_of v vs'.
Proof.
  intros Hsame (Hle & Hnil & Hin).
  rewrite List.Forall_forall in Hle.
  split; [|split].
  - apply List.Forall_forall. intros x Hx. apply Hle, Hsame, Hx.
  - intros ->. apply Hnil. destruct vs as [|x vs]; [reflexivity|].
    exfalso. apply (proj1 (Hsame x)). left. reflexivity.
  - intros Hne. apply Hsame, Hin. intros ->.
    destruct vs' as [|x vs']; [congruence|].
    apply (proj2 (Hsame x)). left. reflexivity.
Qed.

Lemma map_uniq_same {B : Type} (f : Z -> B) (l : list Z) (x : B) :
  In x (map f (uniq l)) <-> In x (map f l).
Proof.
  rewrite !in_map_iff. split; intros (m & E & Hm); exists m;
    (split; [exact E|]); apply uniq_In; exact Hm.
Qed.

Section ClassicalValue.

Context `{Rules}.

(** The value at the root of the reference tree is the classical value: a
    move listed twice counts once. *)
Lemma search_tree_value (h : State -> string -> Z) (max_role : string)
    (n : nat) (s : State) :
  value (search_tree h max_role n s) = minimax_value h max_role n s.
Proof.
  revert s. induction n as [|n IH]; intros s; simpl; [reflexivity|].
  destruct (is_terminal s); [reflexivity|]. simpl value.
  rewrite map_map. simpl.
  assert (E : map (fun m => value (search_tree h max_role n
                                     (advance_state s m)))
                  (uniq (get_legal_moves s)) =
              map (fun m => minimax_value h max_role n (advance_state s m))
                  (uniq (get_legal_moves s))).
  { apply map_ext. intros m. apply IH. }
  rewrite E. clear E.
  destruct (String.eqb (turn s) max_role).
  - apply (is_max_of_unique _ _ _ (fold_max_is_max _)).
    eapply is_max_of_same; [|apply fold_max_is_max].
    intros x. symmetry. apply map_uniq_same.
  - apply (is_min_of_unique _ _ _ (fold_min_is_min _)).
    eapply is_min_of_same; [|apply fold_min_is_min].
    intros x. symmetry. apply map_uniq_same.
Qed.

(** X1. For a depth from 0 up to the fuel, and a heuristic that returns a
    number, minimax on a new node returns the classical minimax value of the
    state for that depth. *)
Theorem minimax_is_classical_minimax (fuel : nat) (s : State) (depth : Z)
    (max_role : string) (h : State -> string -> Z) :
  0 <= depth < Z.of_nat fuel ->
  exists node',
    minimax fuel (MinimaxNode_init s) depth max_role (fun s r => Ok (h s r))
    = Ok (node', minimax_value h max_role (Z.to_nat depth) s).
Proof.
  intros Hd. exists (search_tree h max_role (Z.to_nat depth) s).
  rewrite <- search_tree_value. apply minimax_total. exact Hd.
Qed.

(** X2. Once every line of play from the state ends within [n] plies, a
    deeper search changes nothing: every depth from [n] on gives the tree
    and the value of depth [n]. *)
Theorem minimax_depth_beyond_end (fuel n : nat) (s : State) (depth : Z)
    (max_role : string) (h : State -> string -> Z) :
  ends_within n s = true ->
  Z.of_nat n <= depth ->
  (n < fuel)%nat ->
  exists node' v,
    minimax fuel (MinimaxNode_init s) (Z.of_nat n) max_role
            (fun s r => Ok (h s r)) = Ok (node', v) /\
    minimax fuel (MinimaxNode_init s) depth max_role
            (fun s r => Ok (h s r)) = Ok (node', v).
Proof.
  intros He Hd Hf.
  exists (search_tree h max_role n s), (value (search_tree h max_role n s)).
  split.
  - apply (minimax_search_tree (fun _ => true)); auto using within_true.
  - apply (minimax_search_tree (fun _ => true)); auto using within_true.
Qed.

(** X3. A state that is not terminal but has no legal move, searched at a
    depth other than 0: minimax gives the node float('-inf') when the
    maximizing role is to move and float('inf') otherwise, with no
    successors, and [play] raises ValueError. *)
Theorem minimax_without_moves (fuel : nat) (entropy : Z)
    (self : MinimaxPlayer) (s : State) :
  is_terminal s = false ->
  get_legal_moves s = [] ->
  depth self <> 0 ->
  let v := if String.eqb (turn s) (role self) then NegInf else PosInf in
  minimax (S fuel) (MinimaxNode_init s) (depth self) (role self) (heur self)
    = Ok (mkNode s v [], v) /\
  play (S fuel) entropy self s = Raise ValueError.
Proof.
  intros Ht Hm Hd v.
  assert (E : minimax (S fuel) (MinimaxNode_init s) (depth self) (role self)
                      (heur self) = Ok (mkNode s v [], v)).
  { rewrite minimax_expand by assumption.
    unfold fresh_children. rewrite Hm. simpl.
    unfold v. destruct (String.eqb (turn s) (role self)); reflexivity. }
  split; [exact E|]. unfold play. rewrite E. reflexivity.
Qed.

(** X4. If the heuristic stays in [lo .. hi] on every state the search
    meets, and each of these states that is not terminal has a legal move,
    then the value minimax returns and every value in the tree it builds
    lie in [lo .. hi]. *)
Theorem minimax_value_in_heuristic_range (p : State -> bool)
    (heuristic_fn : State -> string -> result Z) (h : State -> string -> Z)
    (max_role : string) (lo hi : Z) (fuel : nat) (s : State) (depth : Z) :
  (forall s, p s = true ->
     heuristic_fn s max_role = Ok (h s max_role) /\
     lo <= h s max_role <= hi) ->
  0 <= depth < Z.of_nat fuel ->
  within (fun s => p s && can_move s) (Z.to_nat depth) s = true ->
  exists node' v,
    minimax fuel (MinimaxNode_init s) depth max_role heuristic_fn
      = Ok (node', Num v) /\
    lo <= v <= hi /\
    all_nodes (value_in lo hi) node' = true.
Proof.
  intros Hh Hd Hw. eapply minimax_bounded; eauto.
Qed.

End ClassicalValue.

Section StoreAgrees.

Context `{Rules}.

Import Store StoreFacts StoreSimulation.

(** X13. On a new node that refers to a state object of the store, the
    search on the store and the search on values agree: one returns exactly
    when the other does, with the same value, and the tree of references read
    through the final store is the tree of values; an exception of one is the
    exception of the other. *)
Theorem store_search_agrees (fuel : nat) (st : list State) (l : nat)
    (s : State) (depth : Z) (max_role : string)
    (heuristic_fn : State -> string -> result Z) :
  st !! l = Some s ->
  (forall node' v,
     minimax fuel (MinimaxNode_init s) depth max_role heuristic_fn
       = Ok (node', v) ->
     exists copies rnode',
       minimax_at fuel st (RNode_init l) depth max_role heuristic_fn
         = Ok (st ++ copies, rnode', v) /\
       reify (st ++ copies) rnode' = Some node') /\
  (forall e,
     minimax fuel (MinimaxNode_init s) depth max_role heuristic_fn = Raise e
     -> minimax_at fuel st (RNode_init l) depth max_role heuristic_fn
        = Raise e).
Proof.
  intros Hl.
  pose proof (minimax_at_simulates max_role heuristic_fn fuel st l s depth Hl)
    as Hsim.
  split.
  - intros node' v E. rewrite E in Hsim. exact Hsim.
  - intros e E. rewrite E in Hsim. exact Hsim.
Qed.

End StoreAgrees.

(** * Further properties of the players *)

Section PlayerFacts.

Context `{Rules}.

Lemma eval_list_keys
    (search : MinimaxNode -> result (MinimaxNode * number))
    (d : dict MinimaxNode) (rs : list (Z * MinimaxNode * number)) :
  eval_list search d = Ok rs -> dict_keys (map fst rs) = dict_keys d.
Proof.
  revert rs. induction d as [|[k c] d IH]; intros rs; simpl.
  - intros [= <-]. reflexivity.
  - destruct (search c) as [[c' v]|e]; simpl; [|discriminate].
    destruct (eval_list search d) as [rs'|e]; simpl; [|discriminate].
    intros [= <-]. simpl. f_equal. apply IH. reflexivity.
Qed.

(** The successors of the root after a search from a new node: none in the
    base case, otherwise the legal moves, each once. *)
Lemma minimax_new_keys (fuel : nat) (s : State) (depth : Z)
    (max_role : string) (heuristic_fn : State -> string -> result Z)
    (root : MinimaxNode) (v : number) :
  minimax fuel (MinimaxNode_init s) depth max_role heuristic_fn
    = Ok (root, v) ->
  dict_keys (successors root) =
  if (depth =? 0) || is_terminal s then [] else uniq (get_legal_moves s).
Proof.
  destruct fuel as [|fuel]; [discriminate|].
  destruct ((depth =? 0) || is_terminal s) eqn:Eb.
  - rewrite minimax_base
      by (apply orb_true_iff in Eb; destruct Eb as [E|E];
          [left; apply Z.eqb_eq, E | right; exact E]).
    simpl. destruct (heuristic_fn s max_role); simpl; [|discriminate].
    intros [= <- _]. reflexivity.
  - apply orb_false_iff in Eb. destruct Eb as [Ed Et].
    rewrite minimax_expand by (try apply Z.eqb_neq; assumption).
    destruct (eval_list _ (fresh_children s)) as [rs|e] eqn:El; simpl;
      [|discriminate].
    intros [= <- _]. simpl successors.
    rewrite (eval_list_keys _ _ _ El). apply fresh_children_keys.
Qed.

(** What [play] does after the search: it draws one of the moves whose
    child has the greatest value. *)
Lemma play_selects (fuel : nat) (self : MinimaxPlayer) (s : State)
    (root : MinimaxNode) (v : number) :
  minimax fuel (MinimaxNode_init s) (depth self) (role self) (heur self)
    = Ok (root, v) ->
  is_terminal s = false -> depth self <> 0 -> get_legal_moves s <> [] ->
  exists best,
    best <> [] /\
    (forall k, In k best <->
               In k (get_legal_moves s) /\
               is_max_of (score_of root k) (child_values root)) /\
    (forall k, In k (get_legal_moves s) ->
               exists c, dict_get (successors root) k = Ok c) /\
    (forall entropy,
       play fuel entropy self s =
       (let* k := randint 0 (len best - 1) entropy in py_index best k)).
Proof.
  intros Hrun Ht Hd Hmoves.
  pose proof (minimax_new_keys _ _ _ _ _ _ _ Hrun) as Hkeys.
  apply Z.eqb_neq in Hd. rewrite Hd, Ht in Hkeys. simpl in Hkeys.
  assert (Hnd : List.NoDup (dict_keys (successors root)))
    by (rewrite Hkeys; apply uniq_NoDup).
  assert (Hne : dict_keys (successors root) <> []).
  { rewrite Hkeys. destruct (get_legal_moves s) as [|m ms] eqn:Em;
      [congruence|].
    assert (Hin : In m (uniq (m :: ms))) by (apply uniq_In; left; reflexivity).
    destruct (uniq (m :: ms)); [destruct Hin | discriminate]. }
  destruct (scan_keeps_maximal (score_of root) _ Hne) as [Hbne Hbest].
  rewrite (score_of_values root Hnd) in Hbest.
  exists (fold_left (keep_best (score_of root))
                    (dict_keys (successors root)) []).
  split; [exact Hbne|]. split; [|split].
  - intros k. rewrite Hbest, Hkeys, uniq_In. reflexivity.
  - intros k Hk. apply (proj2 (uniq_In _ _)) in Hk. rewrite <- Hkeys in Hk.
    destruct (dict_get_In _ _ Hk) as (c & Ec & _). eauto.
  - intros entropy. unfold play. rewrite Hrun. simpl bind.
    rewrite scan_best_eq. reflexivity.
Qed.

Lemma randint_py_index (best : list Z) (entropy : Z) :
  best <> [] ->
  exists m, (let* k := randint 0 (len best - 1) entropy in py_index best k)
            = Ok m /\ In m best.
Proof.
  intros Hne. unfold randint.
  assert (0 < len best)
    by (unfold len; destruct best; simpl; [congruence | lia]).
  destruct (Z.ltb_spec (len best - 1) 0) as [|_]; [lia|]. simpl bind.
  replace (len best - 1 - 0 + 1) with (len best) by lia.
  pose proof (Z.mod_pos_bound entropy (len best) ltac:(lia)) as Hk.
  rewrite (py_index_nth best _ 0) by lia.
  eexists. split; [reflexivity|].
  apply nth_In. unfold len in *. lia.
Qed.

Lemma randint_reaches (best : list Z) (m : Z) :
  In m best ->
  exists entropy,
    (let* k := randint 0 (len best - 1) entropy in py_index best k) = Ok m.
Proof.
  intros Hin. destruct (In_nth best m 0 Hin) as (i & Hi & Enth).
  exists (Z.of_nat i). unfold randint.
  destruct (Z.ltb_spec (len best - 1) 0) as [Hlt|_];
    [unfold len in Hlt; lia|].
  replace (0 + Z.of_nat i mod (len best - 1 - 0 + 1)) with (Z.of_nat i)
    by (replace (len best - 1 - 0 + 1) with (len best) by lia;
        rewrite Z.mod_small; unfold len; lia).
  simpl bind. rewrite (py_index_nth best (Z.of_nat i) 0)
    by (unfold len; lia).
  rewrite Nat2Z.id, Enth. reflexivity.
Qed.

(** X12. When the child of one move has a value strictly greater than the
    child of every other legal move, [play] returns that move whatever the
    random generator draws. *)
Theorem play_unique_best_is_deterministic (fuel : nat) (entropy : Z)
    (self : MinimaxPlayer) (s : State) (root : MinimaxNode) (v : number)
    (m : Z) (c : MinimaxNode) :
  minimax fuel (MinimaxNode_init s) (depth self) (role self) (heur self)
    = Ok (root, v) ->
  is_terminal s = false -> depth self <> 0 ->
  In m (get_legal_moves s) ->
  dict_get (successors root) m = Ok c ->
  (forall m' c', In m' (get_legal_moves s) -> m' <> m ->
     dict_get (successors root) m' = Ok c' ->
     num_ltb (value c') (value c) = true) ->
  play fuel entropy self s = Ok m.
Proof.
  intros Hrun Ht Hd Hm Ec Hstrict.
  assert (Hmoves : get_legal_moves s <> [])
    by (intros E; rewrite E in Hm; destruct Hm).
  destruct (play_selects fuel self s root v Hrun Ht Hd Hmoves)
    as (best & Hbne & Hbest & Hget & Hplay).
  rewrite Hplay.
  destruct (randint_py_index best entropy Hbne) as (k & Ek & Hk).
  rewrite Ek. f_equal.
  apply Hbest in Hk. destruct Hk as [Hkin Hkmax].
  destruct (Z.eq_dec k m) as [|Hne]; [assumption|]. exfalso.
  destruct (Hget k Hkin) as (ck & Eck).
  specialize (Hstrict k ck Hkin Hne Eck).
  destruct Hkmax as (Hle & _ & _).
  rewrite List.Forall_forall in Hle.
  assert (Hin : In (value c) (child_values root)).
  { unfold child_values. apply in_map_iff. exists (m, c).
    split; [reflexivity|]. apply dict_get_Ok_In. exact Ec. }
  specialize (Hle _ Hin). unfold score_of in Hle. rewrite Eck in Hle.
  unfold num_leb in Hle. rewrite Hstrict in Hle. discriminate.
Qed.

(** One ply of search from a new node. *)
Lemma minimax_one_ply (fuel : nat) (s : State) (max_role : string)
    (heuristic_fn : State -> string -> result Z) (hv : Z -> Z) :
  is_terminal s = false ->
  (forall m, In m (get_legal_moves s) ->
     heuristic_fn (advance_state s m) max_role = Ok (hv m)) ->
  exists v,
    minimax (S (S fuel)) (MinimaxNode_init s) 1 max_role heuristic_fn =
    Ok (mkNode s v
          (map (fun m => (m, mkNode (advance_state s m) (Num (hv m)) []))
               (uniq (get_legal_moves s))), v).
Proof.
  intros Ht Hh. rewrite minimax_expand; [|lia|exact Ht].
  unfold fresh_children.
  rewrite (eval_list_fresh _ s
             (fun m => mkNode (advance_state s m) (Num (hv m)) [])).
  - simpl bind. rewrite !map_map. simpl. eexists. reflexivity.
  - intros m Hm. apply (proj1 (uniq_In _ _)) in Hm.
    rewrite minimax_base by (left; reflexivity). simpl.
    rewrite (Hh m Hm). reflexivity.
Qed.

(** With a heuristic that gives 100 exactly to the states won by the
    maximizing role and never more, one ply of search makes [play] take a
    win that is one move away. *)
Lemma play_takes_win (fuel : nat) (entropy : Z) (my_role : string)
    (heuristic_fn : State -> string -> result Z) (display : bool)
    (s : State) (hv : Z -> Z) (won : Z -> Prop) :
  is_terminal s = false ->
  (forall m, In m (get_legal_moves s) ->
     heuristic_fn (advance_state s m) my_role = Ok (hv m) /\
     hv m <= 100 /\ (hv m = 100 <-> won m)) ->
  (exists m, In m (get_legal_moves s) /\ won m) ->
  exists m,
    play (S (S fuel)) entropy (mkPlayer my_role 1 heuristic_fn display) s
      = Ok m /\
    In m (get_legal_moves s) /\ won m.
Proof.
  intros Ht Hh (m0 & Hm0 & Hwon0).
  destruct (minimax_one_ply fuel s my_role heuristic_fn hv Ht) as (v & Hrun).
  { intros m Hm. apply Hh, Hm. }
  set (root := mkNode s v
         (map (fun m => (m, mkNode (advance_state s m) (Num (hv m)) []))
              (uniq (get_legal_moves s)))) in *.
  set (self := mkPlayer my_role 1 heuristic_fn display).
  assert (Hmoves : get_legal_moves s <> [])
    by (intros E; rewrite E in Hm0; destruct Hm0).
  destruct (play_selects (S (S fuel)) self s root v Hrun Ht
              ltac:(simpl; lia) Hmoves)
    as (best & Hbne & Hbest & Hget & Hplay).
  rewrite Hplay.
  destruct (randint_py_index best entropy Hbne) as (k & Ek & Hk).
  exists k. split; [exact Ek|].
  apply Hbest in Hk. destruct Hk as [Hkin Hkmax]. split; [exact Hkin|].
  assert (Hscore : forall m, In m (get_legal_moves s) ->
                     score_of root m = Num (hv m)).
  { intros m Hm. unfold score_of, root. simpl successors.
    rewrite (dict_get_NoDup _ m (mkNode (advance_state s m) (Num (hv m)) [])).
    - reflexivity.
    - unfold dict_keys. rewrite map_map. simpl. rewrite map_id.
      apply uniq_NoDup.
    - apply in_map_iff. exists m. split; [reflexivity|].
      apply uniq_In. exact Hm. }
  destruct Hkmax as (Hle & _ & _). rewrite List.Forall_forall in Hle.
  assert (Hin : In (Num (hv m0)) (child_values root)).
  { unfold child_values, root. simpl successors. rewrite map_map. simpl.
    apply in_map_iff. exists m0. split; [reflexivity|].
    apply uniq_In. exact Hm0. }
  specialize (Hle _ Hin). rewrite (Hscore k Hkin) in Hle.
  unfold num_leb in Hle. simpl in Hle.
  apply negb_true_iff, Z.ltb_ge in Hle.
  apply (Hh k Hkin). apply (proj2 (proj2 (Hh m0 Hm0))) in Hwon0.
  destruct (Hh k Hkin) as (_ & Hk100 & _). lia.
Qed.

(** X11. A player that searches one ply with [zero_heur] or with
    [three_line_heur] (on the board of 7 columns and 6 rows) and has a move
    that wins at once plays such a move, whatever the random generator
    draws. *)
Theorem play_takes_immediate_win (fuel : nat) (entropy : Z)
    (my_role : string) (heuristic_fn : State -> string -> result Z)
    (display : bool) (s : State) :
  In heuristic_fn [zero_heur; three_line_heur] ->
  my_role <> EmptyString ->
  is_terminal s = false ->
  (forall m, In m (get_legal_moves s) ->
     well_formed 7 6 (advance_state s m) = true) ->
  (exists m, In m (get_legal_moves s) /\
             is_terminal (advance_state s m) = true /\
             winner (advance_state s m) = my_role) ->
  exists m,
    play (S (S fuel)) entropy (mkPlayer my_role 1 heuristic_fn display) s
      = Ok m /\
    In m (get_legal_moves s) /\
    is_terminal (advance_state s m) = true /\
    winner (advance_state s m) = my_role.
Proof.
  intros Hin Hrole Ht Hwf Hwin.
  set (final := fun c : State =>
         if String.eqb (winner c) EmptyString then 0
         else if String.eqb (winner c) my_role then 100 else -100).
  assert (Hfinal : forall c, final c <= 100 /\
            (final c = 100 <-> winner c = my_role)).
  { intros c. unfold final.
    destruct (String.eqb_spec (winner c) EmptyString) as [E|E].
    - split; [lia|]. split; [lia | congruence].
    - destruct (String.eqb_spec (winner c) my_role) as [E'|E'].
      + split; [lia|]. tauto.
      + split; [lia|]. split; [lia | congruence]. }
  set (won := fun m => is_terminal (advance_state s m) = true /\
                       winner (advance_state s m) = my_role).
  destruct Hin as [<-|[<-|[]]].
  - apply (play_takes_win fuel entropy my_role zero_heur display s
             (fun m => if is_terminal (advance_state s m)
                       then final (advance_state s m) else 0) won Ht);
      [|exact Hwin].
    intros m Hm. rewrite zero_heur_total. split; [reflexivity|].
    unfold won. destruct (is_terminal (advance_state s m)).
    + destruct (Hfinal (advance_state s m)) as [Hle Hiff].
      split; [exact Hle|]. rewrite Hiff. tauto.
    + split; [lia|]. split; [lia | intros [? _]; discriminate].
  - apply (play_takes_win fuel entropy my_role three_line_heur display s
             (fun m => if is_terminal (advance_state s m)
                       then final (advance_state s m)
                       else three_line_count (advance_state s m) my_role)
             won Ht); [|exact Hwin].
    intros m Hm. unfold won.
    destruct (is_terminal (advance_state s m)) eqn:Etm.
    + destruct (terminal_score (advance_state s m) my_role Etm)
        as (_ & E3 & _).
      split; [exact E3|].
      destruct (Hfinal (advance_state s m)) as [Hle Hiff].
      split; [exact Hle|]. rewrite Hiff. tauto.
    + split; [apply (three_line_heur_count 7 6); auto|].
      specialize (Hwf m Hm). unfold well_formed in Hwf.
      rewrite !andb_true_iff in Hwf. destruct Hwf as [[[Hc Hr] _] _].
      apply Z.eqb_eq in Hc, Hr.
      pose proof (three_line_count_bound (advance_state s m) my_role Hc Hr).
      split; [lia|]. split; [lia | intros [? _]; discriminate].
Qed.

(** X9. [FirstMovePlayer.play] returns the first legal move, and raises
    IndexError when there is none. *)
Theorem first_move_player_plays_first (s : State) :
  (get_legal_moves s = [] -> FirstMovePlayer_play s = Raise IndexError) /\
  (forall m rest, get_legal_moves s = m :: rest ->
     FirstMovePlayer_play s = Ok m /\ In m (get_legal_moves s)).
Proof.
  unfold FirstMovePlayer_play. split.
  - intros ->. reflexivity.
  - intros m rest E. rewrite E. split; [|left; reflexivity].
    rewrite (py_index_nth (m :: rest) 0 0) by (unfold len; simpl; lia).
    reflexivity.
Qed.

(** X10. [RandomPlayer.play] returns a legal move for every draw of the
    random generator, each legal move for some draw, and raises ValueError
    when there is no legal move. *)
Theorem random_player_plays_legal (s : State) :
  (get_legal_moves s = [] ->
   forall entropy, RandomPlayer_play entropy s = Raise ValueError) /\
  (get_legal_moves s <> [] ->
   (forall entropy, exists m,
      RandomPlayer_play entropy s = Ok m /\ In m (get_legal_moves s)) /\
   (forall m, In m (get_legal_moves s) ->
      exists entropy, RandomPlayer_play entropy s = Ok m)).
Proof.
  unfold RandomPlayer_play. split.
  - intros -> entropy. reflexivity.
  - intros Hne. split.
    + intros entropy. apply randint_py_index. exact Hne.
    + intros m Hm. apply randint_reaches. exact Hm.
Qed.

End PlayerFacts.

(** * Further properties of the heuristics *)

Lemma line_starts_In (s : State) (i j : Z) (d : Z * Z) :
  In (i, j, d) (line_starts s) ->
  0 <= i < num_cols s /\ 0 <= j < num_rows s.
Proof.
  unfold line_starts. rewrite in_flat_map. intros (i' & Hi & Hin).
  rewrite in_flat_map in Hin. destruct Hin as (j' & Hj & Hin).
  apply in_map_iff in Hin. destruct Hin as (d' & [= <- <- <-] & _).
  apply py_range_In in Hi, Hj. tauto.
Qed.

Lemma mark_at_ok (cols rows : Z) (s : State) (i j : Z) :
  well_formed cols rows s = true -> marks_ok s = true ->
  coords_legal s i j = true ->
  mark_at s i j = "."%string \/ mark_at s i j = "x"%string
  \/ mark_at s i j = "o"%string.
Proof.
  unfold well_formed, marks_ok, coords_legal, mark_at.
  rewrite !andb_true_iff, !Z.eqb_eq, !Z.leb_le, !Z.ltb_lt, !forallb_forall.
  intros [[[Hc Hr] Hl] Hall] Hm [[[Hi1 Hi2] Hj1] Hj2].
  assert (Hcol : In (nth (Z.to_nat i) (board s) []) (board s)).
  { apply nth_In. unfold len in Hl. lia. }
  pose proof (Hall _ Hcol) as Hlen. apply Z.eqb_eq in Hlen.
  specialize (Hm _ Hcol). rewrite forallb_forall in Hm.
  assert (Hcell : In (nth (Z.to_nat j) (nth (Z.to_nat i) (board s) [])
                          EmptyString)
                     (nth (Z.to_nat i) (board s) [])).
  { apply nth_In. unfold len in Hlen. lia. }
  specialize (Hm _ Hcell). rewrite !orb_true_iff, !String.eqb_eq in Hm.
  tauto.
Qed.

Lemma zsum_map_opp {A : Type} (f g : A -> Z) (l : list A) :
  (forall x, In x l -> g x = - f x) ->
  zsum (map g l) = - zsum (map f l).
Proof.
  induction l as [|x l IH]; intros Hfg; simpl; [reflexivity|].
  rewrite (Hfg x) by (left; reflexivity).
  rewrite IH by (intros; apply Hfg; right; assumption). lia.
Qed.

(** X6. [three_line_heur] is zero-sum: on a well-formed board whose cells
    hold '.', 'x' or 'o' (and whose winner, if the state is terminal, is '',
    'x' or 'o') it returns for 'o' the opposite of what it returns for
    'x'. *)
Theorem three_line_heur_zero_sum (cols rows : Z) (s : State) :
  well_formed cols rows s = true ->
  marks_ok s = true ->
  winner s = EmptyString \/ winner s = "x"%string \/ winner s = "o"%string ->
  exists z,
    three_line_heur s "x" = Ok z /\ three_line_heur s "o" = Ok (- z).
Proof.
  intros Hwf Hmarks Hwin. destruct (is_terminal s) eqn:Ht.
  - destruct (terminal_score s "x" Ht) as (_ & Ex & _).
    destruct (terminal_score s "o" Ht) as (_ & Eo & _).
    rewrite Ex, Eo.
    destruct Hwin as [-> | [-> | ->]]; simpl; eexists; split; reflexivity.
  - rewrite !(three_line_heur_count cols rows) by assumption.
    exists (three_line_count s "x"). split; [reflexivity|]. f_equal.
    unfold three_line_count.
    rewrite <- !zsum_term_count.
    apply zsum_map_opp. intros [[i j] [dc dr]] Hin.
    apply line_starts_In in Hin.
    assert (Hleg : coords_legal s i j = true).
    { unfold coords_legal.
      rewrite !andb_true_iff, !Z.leb_le, !Z.ltb_lt. lia. }
    destruct (three_line s (i, j, (dc, dr))) eqn:E3; [|reflexivity].
    unfold owned_by. simpl fst. simpl snd.
    unfold three_line in E3. rewrite !andb_true_iff in E3.
    destruct E3 as [[[Hocc _] _] _]. apply negb_true_iff in Hocc.
    destruct (mark_at_ok cols rows s i j Hwf Hmarks Hleg) as [E|[E|E]];
      rewrite E in *; simpl in *; [discriminate | reflexivity | reflexivity].
Qed.

(** Two runs of a loop whose steps add opposite amounts, each of size at
    most [B], end with opposite sums of size at most [B] per element. *)
Lemma for_each_mirror {A : Type} (l : list A)
    (body1 body2 : Z -> A -> result Z) (B : Z) :
  0 <= B ->
  (forall x a b, In x l ->
     exists d, body1 a x = Ok (a + d) /\ body2 b x = Ok (b - d) /\
               Z.abs d <= B) ->
  forall a b,
  exists d, for_each l a body1 = Ok (a + d) /\
            for_each l b body2 = Ok (b - d) /\
            Z.abs d <= B * len l.
Proof.
  intros HB. induction l as [|x l IH]; intros Hstep a b.
  - exists 0. simpl. unfold len. simpl.
    repeat split; first [lia | f_equal; lia].
  - destruct (Hstep x a b ltac:(left; reflexivity)) as (d1 & E1 & E2 & Hd1).
    destruct (IH (fun y a b Hy => Hstep y a b (or_intror Hy))
                 (a + d1) (b - d1)) as (d2 & F1 & F2 & Hd2).
    exists (d1 + d2). simpl. rewrite E1, E2. simpl. rewrite F1, F2.
    repeat split; try (f_equal; lia).
    unfold len in *. simpl length. nia.
Qed.

Lemma for_each_break_ok {A S : Type} (l : list A)
    (body : S -> A -> result (flow S)) :
  (forall x st, In x l -> exists f, body st x = Ok f) ->
  forall st, exists r, for_each_break l st body = Ok r.
Proof.
  induction l as [|x l IH]; intros Hb st; simpl; [eauto|].
  destruct (Hb x st ltac:(left; reflexivity)) as (f & Ef). rewrite Ef. simpl.
  destruct f as [st'|st']; [|eauto].
  apply IH. intros y st0 Hy. apply Hb. right. exact Hy.
Qed.

(** The scan of a line never reads outside the board. *)
Lemma scan_line_ok (cols rows : Z) (s : State) (piece : string)
    (i j dc dr : Z) :
  well_formed cols rows s = true ->
  exists n o, scan_line s piece i j dc dr = Ok (n, o).
Proof.
  intros Hwf. unfold scan_line.
  destruct (for_each_break_ok (py_range2 1 4)
              (fun '(in_a_row, open_ends) dist =>
                 let next_col := i + dist * dc in
                 let next_row := j + dist * dr in
                 if coords_legal s next_col next_row then
                   let* c := board_at s next_col next_row in
                   if String.eqb c piece
                   then Ok (Continue (in_a_row + 1, open_ends))
                   else
                     let* c' := board_at s next_col next_row in
                     if String.eqb c' "."
                     then Ok (Break (in_a_row, open_ends + 1))
                     else Ok (Break (in_a_row, open_ends))
                 else Ok (Break (in_a_row, open_ends)))) with (st := (0, 0))
    as ([n o] & E).
  - intros dist [n o] _. cbv zeta.
    destruct (coords_legal s (i + dist * dc) (j + dist * dr)) eqn:El;
      [|eauto].
    rewrite (board_at_mark cols rows) by assumption. cbn [bind].
    destruct (String.eqb _ piece); [eauto|].
    destruct (String.eqb _ "."); eauto.
  - exists n, o. exact E.
Qed.

Lemma line_score_weight (piece max_role : string) (n o result : Z) :
  line_score piece max_role n o result =
  result + (if String.eqb piece max_role then 1 else -1) * line_weight n o.
Proof.
  unfold line_score, line_weight.
  destruct ((n =? 1) && (o >=? 1)); [destruct (String.eqb _ _); lia|].
  destruct (n =? 2).
  - destruct (o >=? 1); destruct (String.eqb _ _); lia.
  - destruct ((n =? 0) && (o =? 2)); destruct (String.eqb _ _); lia.
Qed.

Lemma line_weight_bound (n o : Z) : 0 <= line_weight n o <= 10.
Proof.
  unfold line_weight.
  destruct ((n =? 1) && (o >=? 1)); [lia|].
  destruct (n =? 2); [destruct (o >=? 1); lia|].
  destruct ((n =? 0) && (o =? 2)); lia.
Qed.

(** One direction at one cell holding 'x' or 'o', for the two roles. *)
Lemma my_heuristic_direction (cols rows : Z) (s : State) (i j dir a b : Z) :
  well_formed cols rows s = true ->
  mark_at s i j = "x"%string \/ mark_at s i j = "o"%string ->
  In dir (py_range (len col_dirs)) ->
  let body := fun (max_role : string) (result : Z) =>
    let* dc := py_index col_dirs dir in
    let* dr := py_index row_dirs dir in
    let* (in_a_row, open_ends) := scan_line s (mark_at s i j) i j dc dr in
    let opposite_col := i - dc in
    let opposite_row := j - dr in
    let* open_ends :=
      if coords_legal s opposite_col opposite_row then
        let* c := board_at s opposite_col opposite_row in
        if String.eqb c "." then Ok (open_ends + 1) else Ok open_ends
      else Ok open_ends in
    Ok (line_score (mark_at s i j) max_role in_a_row open_ends result) in
  exists d, body "x"%string a = Ok (a + d) /\ body "o"%string b = Ok (b - d)
            /\ Z.abs d <= 10.
Proof.
  intros Hwf Hpiece Hdir body. unfold body. clear body.
  apply py_range_In in Hdir.
  rewrite (py_index_nth col_dirs dir 0) by exact Hdir.
  rewrite (py_index_nth row_dirs dir 0) by exact Hdir.
  cbn [bind].
  set (dc := nth (Z.to_nat dir) col_dirs 0).
  set (dr := nth (Z.to_nat dir) row_dirs 0).
  destruct (scan_line_ok cols rows s (mark_at s i j) i j dc dr Hwf)
    as (n & o & Escan).
  rewrite Escan. cbn [bind].
  assert (Hopp : exists o',
            (if coords_legal s (i - dc) (j - dr) then
               let* c := board_at s (i - dc) (j - dr) in
               if String.eqb c "." then Ok (o + 1) else Ok o
             else Ok o) = Ok o').
  { destruct (coords_legal s (i - dc) (j - dr)) eqn:El; [|eauto].
    rewrite (board_at_mark cols rows) by assumption. cbn [bind].
    destruct (String.eqb _ "."); eauto. }
  destruct Hopp as (o' & Eo'). rewrite Eo'. cbn [bind].
  rewrite !line_score_weight.
  pose proof (line_weight_bound n o') as Hw.
  destruct Hpiece as [E|E]; rewrite E; simpl String.eqb.
  - exists (line_weight n o'). repeat split; first [lia | f_equal; lia].
  - exists (- line_weight n o'). repeat split; first [lia | f_equal; lia].
Qed.

(** One cell of the board, for the two roles. *)
Lemma my_heuristic_cell (cols rows : Z) (s : State) (i j a b : Z) :
  well_formed cols rows s = true -> marks_ok s = true ->
  coords_legal s i j = true ->
  let body := fun (max_role : string) (result : Z) =>
    let* here := board_at s i j in
    if negb (String.eqb here ".") then
      let* piece := board_at s i j in
      let result :=
        if i =? num_cols s / 2 then
          if String.eqb piece max_role then result + 2 else result - 2
        else result in
      for_each (py_range (len col_dirs)) result (fun result dir =>
        let* dc := py_index col_dirs dir in
        let* dr := py_index row_dirs dir in
        let* (in_a_row, open_ends) := scan_line s piece i j dc dr in
        let opposite_col := i - dc in
        let opposite_row := j - dr in
        let* open_ends :=
          if coords_legal s opposite_col opposite_row then
            let* c := board_at s opposite_col opposite_row in
            if String.eqb c "." then Ok (open_ends + 1) else Ok open_ends
          else Ok open_ends in
        Ok (line_score piece max_role in_a_row open_ends result))
    else Ok result in
  exists d, body "x"%string a = Ok (a + d) /\ body "o"%string b = Ok (b - d)
            /\ Z.abs d <= 42.
Proof.
  intros Hwf Hmarks Hleg body. unfold body. clear body.
  rewrite (board_at_mark cols rows) by assumption. cbn [bind].
  destruct (mark_at_ok cols rows s i j Hwf Hmarks Hleg) as [E|Hpiece].
  - rewrite E. simpl. exists 0. repeat split; first [lia | f_equal; lia].
  - assert (Hocc : String.eqb (mark_at s i j) "." = false)
      by (destruct Hpiece as [E|E]; rewrite E; reflexivity).
    rewrite Hocc. simpl negb. cbv iota.
    set (centre := fun (max_role : string) (result : Z) =>
           if i =? num_cols s / 2 then
             if String.eqb (mark_at s i j) max_role
             then result + 2 else result - 2
           else result).
    assert (Hc : exists d0, centre "x"%string a = a + d0 /\
                            centre "o"%string b = b - d0 /\ Z.abs d0 <= 2).
    { unfold centre. destruct (i =? num_cols s / 2).
      - destruct Hpiece as [E|E]; rewrite E; simpl String.eqb.
        + exists 2. lia.
        + exists (-2). lia.
      - exists 0. lia. }
    destruct Hc as (d0 & Ea & Eb & Hd0).
    fold (centre "x"%string a). fold (centre "o"%string b).
    destruct (for_each_mirror (py_range (len col_dirs)) _ _ 10 ltac:(lia)
                (fun dir a b Hdir =>
                   my_heuristic_direction cols rows s i j dir a b
                     Hwf Hpiece Hdir)
                (a + d0) (b - d0)) as (d1 & F1 & F2 & Hd1).
    change (len (py_range (len col_dirs))) with 4 in Hd1.
    exists (d0 + d1). rewrite Ea, Eb. split; [|split].
    + rewrite Z.add_assoc. exact F1.
    + replace (b - (d0 + d1)) with (b - d0 - d1) by lia. exact F2.
    + lia.
Qed.

Lemma py_range_len (n : Z) : 0 <= n -> len (py_range n) = n.
Proof.
  intros Hn. unfold len, py_range, py_range2.
  rewrite length_map, length_seq. lia.
Qed.

(** X7. On a non-terminal state with a well-formed board whose cells hold
    '.', 'x' or 'o', [my_heuristic] reads no cell outside the board, so it
    raises nothing; it is zero-sum between 'x' and 'o'; and its result is at
    most 42 per cell of the board in absolute value. *)
Theorem my_heuristic_safe_and_zero_sum (cols rows : Z) (s : State) :
  well_formed cols rows s = true ->
  marks_ok s = true ->
  is_terminal s = false ->
  0 <= rows ->
  exists z,
    my_heuristic s "x" = Ok z /\ my_heuristic s "o" = Ok (- z) /\
    Z.abs z <= 42 * (cols * rows).
Proof.
  intros Hwf Hmarks Ht Hrows.
  assert (Hdims : num_cols s = cols /\ num_rows s = rows /\ 0 <= cols).
  { unfold well_formed in Hwf. rewrite !andb_true_iff, !Z.eqb_eq in Hwf.
    destruct Hwf as [[[Hc Hr] Hl] _]. unfold len in Hl. lia. }
  destruct Hdims as (Hc & Hr & Hcols).
  destruct (for_each_mirror (py_range (num_cols s))
    (fun result i =>
       for_each (py_range (num_rows s)) result (fun result j =>
         let* here := board_at s i j in
         if negb (String.eqb here ".") then
           let* piece := board_at s i j in
           let result :=
             if i =? num_cols s / 2 then
               if String.eqb piece "x" then result + 2 else result - 2
             else result in
           for_each (py_range (len col_dirs)) result (fun result dir =>
             let* dc := py_index col_dirs dir in
             let* dr := py_index row_dirs dir in
             let* (in_a_row, open_ends) := scan_line s piece i j dc dr in
             let opposite_col := i - dc in
             let opposite_row := j - dr in
             let* open_ends :=
               if coords_legal s opposite_col opposite_row then
                 let* c := board_at s opposite_col opposite_row in
                 if String.eqb c "." then Ok (open_ends + 1) else Ok open_ends
               else Ok open_ends in
             Ok (line_score piece "x" in_a_row open_ends result))
         else Ok result))
    (fun result i =>
       for_each (py_range (num_rows s)) result (fun result j =>
         let* here := board_at s i j in
         if negb (String.eqb here ".") then
           let* piece := board_at s i j in
           let result :=
             if i =? num_cols s / 2 then
               if String.eqb piece "o" then result + 2 else result - 2
             else result in
           for_each (py_range (len col_dirs)) result (fun result dir =>
             let* dc := py_index col_dirs dir in
             let* dr := py_index row_dirs dir in
             let* (in_a_row, open_ends) := scan_line s piece i j dc dr in
             let opposite_col := i - dc in
             let opposite_row := j - dr in
             let* open_ends :=
               if coords_legal s opposite_col opposite_row then
                 let* c := board_at s opposite_col opposite_row in
                 if String.eqb c "." then Ok (open_ends + 1) else Ok open_ends
               else Ok open_ends in
             Ok (line_score piece "o" in_a_row open_ends result))
         else Ok result))
    (42 * rows) ltac:(lia)) with (a := 0) (b := 0) as (d & E1 & E2 & Hd).
  - intros i a b Hi. apply py_range_In in Hi.
    destruct (for_each_mirror (py_range (num_rows s)) _ _ 42 ltac:(lia)
                (fun j a b Hj =>
                   my_heuristic_cell cols rows s i j a b Hwf Hmarks
                     ltac:(apply py_range_In in Hj; unfold coords_legal;
                           rewrite !andb_true_iff, !Z.leb_le, !Z.ltb_lt;
                           lia))
                a b) as (d & F1 & F2 & Hd).
    exists d. split; [exact F1|]. split; [exact F2|].
    rewrite Hr, py_range_len in Hd by exact Hrows. lia.
  - exists d. split; [|split].
    + unfold my_heuristic. rewrite Ht. exact E1.
    + unfold my_heuristic. rewrite Ht. exact E2.
    + rewrite Hc, py_range_len in Hd by exact Hcols. lia.
Qed.

(** The scan of one window of [evaluate_position]. *)
Lemma scan_window_from (cols rows : Z) (s : State) (col row : Z)
    (role : string) (d_col d_row : Z) (offsets : list Z) (acc : Z) :
  well_formed cols rows s = true ->
  let cells := List.filter (fun cr => coords_legal s (fst cr) (snd cr))
                 (map (fun offset => (col + offset * d_col,
                                      row + offset * d_row)) offsets) in
  for_each_break offsets acc (fun potential_line offset =>
    let c := col + offset * d_col in
    let r := row + offset * d_row in
    if (0 <=? c) && (c <? num_cols s) && (0 <=? r) && (r <? num_rows s) then
      let* here := board_at s c r in
      if String.eqb here role then Ok (Continue (potential_line + 1))
      else
        let* here' := board_at s c r in
        if negb (String.eqb here' ".") then Ok (Break 0)
        else Ok (Continue potential_line)
    else Ok (Continue potential_line)) =
  Ok (if existsb (fun cr =>
            negb (String.eqb (mark_at s (fst cr) (snd cr)) role) &&
            negb (String.eqb (mark_at s (fst cr) (snd cr)) ".")) cells
      then 0
      else acc + len (List.filter (fun cr =>
                        String.eqb (mark_at s (fst cr) (snd cr)) role)
                        cells)).
Proof.
  intros Hwf. revert acc.
  induction offsets as [|x l IH]; intros acc; simpl.
  - f_equal. unfold len. simpl. lia.
  - fold (coords_legal s (col + x * d_col) (row + x * d_row)).
    destruct (coords_legal s (col + x * d_col) (row + x * d_row)) eqn:El.
    + rewrite (board_at_mark cols rows) by assumption. simpl.
      destruct (String.eqb (mark_at s (col + x * d_col) (row + x * d_row))
                           role) eqn:Er; simpl.
      * rewrite IH. f_equal.
        destruct (existsb _ _); [reflexivity|].
        unfold len. simpl length. lia.
      * destruct (String.eqb (mark_at s (col + x * d_col)
                                         (row + x * d_row)) ".");
          simpl; [apply IH | reflexivity].
    + simpl. apply IH.
Qed.

(** X8. On a well-formed board [evaluate_position] reads no cell outside
    the board, whatever the cell it is asked about, and returns 50 for each
    of the four directions whose window of seven cells holds, on the board,
    no mark of another player and at least three marks of the role: a multiple
    of 50 from 0 to 200. *)
Theorem evaluate_position_counts_windows (cols rows : Z) (s : State)
    (col row : Z) (role : string) :
  well_formed cols rows s = true ->
  evaluate_position s col row role =
  Ok (50 * len (List.filter (window_counts s col row role) eval_directions))
  /\ 0 <= len (List.filter (window_counts s col row role) eval_directions)
     <= 4.
Proof.
  intros Hwf. split.
  - unfold evaluate_position.
    rewrite (for_each_sum eval_directions
               (fun d => if window_counts s col row role d then 50 else 0)).
    + f_equal. unfold len.
      induction eval_directions as [|d l IH]; simpl; [reflexivity|].
      destruct (window_counts s col row role d); simpl length; lia.
    + intros [dc dr] a _. cbv beta iota.
      assert (Hsw : scan_window s col row role dc dr =
                Ok (if existsb (fun cr =>
                         negb (String.eqb (mark_at s (fst cr) (snd cr)) role)
                         && negb (String.eqb (mark_at s (fst cr) (snd cr))
                                             "."))
                       (window_cells s col row dc dr)
                    then 0
                    else 0 + len (List.filter (fun cr =>
                                    String.eqb (mark_at s (fst cr) (snd cr))
                                               role)
                                    (window_cells s col row dc dr))))
        by exact (scan_window_from cols rows s col row role dc dr
                    (py_range2 (-3) 4) 0 Hwf).
      rewrite Hsw. clear Hsw.
      cbn [bind]. unfold window_counts. simpl fst. simpl snd.
      destruct (existsb _ _); cbn [negb andb].
      * change (0 >=? 3) with false. cbv iota. f_equal. lia.
      * rewrite Z.add_0_l, Z.geb_leb.
        destruct (3 <=? _); [reflexivity | f_equal; lia].
  - pose proof (filter_length_le (window_counts s col row role)
                  (fun _ => true) eval_directions (fun _ _ => eq_refl)) as Hle.
    change (length (List.filter (fun _ => true) eval_directions))
      with 4%nat in Hle.
    unfold len. lia.
Qed.

(** * Searching again, and the two roles *)

Lemma dict_set_present {V : Type} (d : dict V) (m : Z) (c : V) :
  List.NoDup (dict_keys d) -> In m (dict_keys d) ->
  dict_set d m c = map (fun kc => (fst kc, if fst kc =? m then c else snd kc)) d.
Proof.
  induction d as [|[k x] d IH]; simpl; intros Hnd Hin; [destruct Hin|].
  inversion Hnd as [|? ? Hk Hnd']; subst.
  destruct (Z.eqb_spec k m) as [->|Hne].
  - f_equal. rewrite <- (map_id d) at 1. apply map_ext_in.
    intros [k' x'] Hin'. simpl.
    destruct (Z.eqb_spec k' m) as [->|_]; [|reflexivity].
    exfalso. apply Hk. unfold dict_keys. apply in_map_iff.
    exists (m, x'). auto.
  - f_equal. apply IH; [exact Hnd'|]. destruct Hin; [contradiction | auto].
Qed.

Section SearchAgain.

Context `{Rules}.

Lemma expand_present (s : State) (v : number) (moves : list Z)
    (d : dict MinimaxNode) :
  List.NoDup (dict_keys d) ->
  (forall m, In m moves -> In m (dict_keys d)) ->
  fold_left (fun node move =>
      let state_cpy := deepcopy (state node) in
      let state_cpy := advance_state state_cpy move in
      set_successor node move (MinimaxNode_init state_cpy))
    moves (mkNode s v d) =
  mkNode s v
    (map (fun kc => (fst kc,
                     if existsb (Z.eqb (fst kc)) moves
                     then MinimaxNode_init (advance_state s (fst kc))
                     else snd kc)) d).
Proof.
  revert d. induction moves as [|m moves IH]; intros d Hnd Hsub; simpl.
  - f_equal. rewrite <- (map_id d) at 1. apply map_ext. intros [k c].
    reflexivity.
  - unfold set_successor at 2. unfold deepcopy at 2. simpl.
    rewrite dict_set_present
      by (try exact Hnd; apply Hsub; left; reflexivity).
    rewrite IH.
    + f_equal. rewrite map_map. apply map_ext. intros [k c]. simpl.
      destruct (Z.eqb_spec k m) as [->|Hne]; simpl.
      * destruct (existsb (Z.eqb m) moves); reflexivity.
      * reflexivity.
    + unfold dict_keys. rewrite map_map. simpl. exact Hnd.
    + intros m' Hm'. unfold dict_keys. rewrite map_map. simpl.
      apply Hsub. right. exact Hm'.
Qed.

Lemma minimax_new_state (fuel : nat) (s : State) (depth : Z)
    (max_role : string) (heuristic_fn : State -> string -> result Z)
    (root : MinimaxNode) (v : number) :
  minimax fuel (MinimaxNode_init s) depth max_role heuristic_fn
    = Ok (root, v) ->
  state root = s.
Proof.
  destruct fuel as [|fuel]; [discriminate|].
  destruct ((depth =? 0) || is_terminal s) eqn:Eb.
  - rewrite minimax_base
      by (apply orb_true_iff in Eb; destruct Eb as [E|E];
          [left; apply Z.eqb_eq, E | right; exact E]).
    simpl. destruct (heuristic_fn s max_role); simpl; [|discriminate].
    intros [= <- _]. reflexivity.
  - apply orb_false_iff in Eb. destruct Eb as [Ed Et].
    rewrite minimax_expand by (try apply Z.eqb_neq; assumption).
    destruct (eval_list _ (fresh_children s)) as [rs|e]; simpl;
      [|discriminate].
    intros [= <- _]. reflexivity.
Qed.

(** X5. A root that a search has expanded can be searched again: at any
    depth other than 0, with any role and heuristic, the second call rebuilds
    every successor from the state and returns what it returns on a new node
    of the same state; nothing of the first tree is left. *)
Theorem minimax_again_ignores_old_tree (fuel1 fuel2 : nat) (s : State)
    (depth1 depth2 : Z) (role1 role2 : string)
    (heur1 heur2 : State -> string -> result Z)
    (root : MinimaxNode) (v : number) :
  minimax fuel1 (MinimaxNode_init s) depth1 role1 heur1 = Ok (root, v) ->
  is_terminal s = false -> depth1 <> 0 -> depth2 <> 0 ->
  minimax fuel2 root depth2 role2 heur2 =
  minimax fuel2 (MinimaxNode_init s) depth2 role2 heur2.
Proof.
  intros Hrun Ht Hd1 Hd2.
  pose proof (minimax_new_keys _ _ _ _ _ _ _ Hrun) as Hkeys.
  pose proof (minimax_new_state _ _ _ _ _ _ _ Hrun) as Hstate.
  apply Z.eqb_neq in Hd1, Hd2. rewrite Hd1, Ht in Hkeys. simpl in Hkeys.
  destruct root as [rs rv rd]. simpl in Hkeys, Hstate. subst rs.
  destruct fuel2 as [|fuel2]; [reflexivity|].
  change (MinimaxNode_init s) with (mkNode s (Num 0) []).
  simpl minimax. rewrite Hd2, Ht. simpl orb. cbv iota.
  assert (E : expand (mkNode s rv rd) = mkNode s rv (fresh_children s)).
  { unfold expand. simpl state. rewrite expand_present.
    - f_equal. unfold fresh_children. rewrite <- Hkeys.
      unfold dict_keys. rewrite map_map. apply map_ext_in.
      intros [k c] Hin. simpl.
      assert (Hk : existsb (Z.eqb k) (get_legal_moves s) = true).
      { apply existsb_exists. exists k. split; [|apply Z.eqb_refl].
        apply uniq_In. rewrite <- Hkeys. unfold dict_keys.
        apply in_map_iff. exists (k, c). auto. }
      rewrite Hk. reflexivity.
    - rewrite Hkeys. apply uniq_NoDup.
    - intros m Hm. rewrite Hkeys. apply uniq_In. exact Hm. }
  rewrite E, expand_fresh. reflexivity.
Qed.

Lemma num_ltb_opp (a b : number) :
  num_ltb (num_opp b) (num_opp a) = num_ltb a b.
Proof.
  destruct a, b; simpl; try reflexivity.
  destruct (Z.ltb_spec (- z0) (- z)), (Z.ltb_spec z z0); try reflexivity; lia.
Qed.

Lemma fold_min_opp (vs : list number) (v0 : number) :
  fold_left py_min (map num_opp vs) (num_opp v0) =
  num_opp (fold_left py_max vs v0).
Proof.
  revert v0. induction vs as [|x vs IH]; intros v0; simpl; [reflexivity|].
  replace (py_min (num_opp v0) (num_opp x)) with (num_opp (py_max v0 x)).
  - apply IH.
  - unfold py_min, py_max. rewrite num_ltb_opp.
    destruct (num_ltb v0 x); reflexivity.
Qed.

Lemma fold_max_opp (vs : list number) (v0 : number) :
  fold_left py_max (map num_opp vs) (num_opp v0) =
  num_opp (fold_left py_min vs v0).
Proof.
  revert v0. induction vs as [|x vs IH]; intros v0; simpl; [reflexivity|].
  replace (py_max (num_opp v0) (num_opp x)) with (num_opp (py_min v0 x)).
  - apply IH.
  - unfold py_min, py_max. rewrite num_ltb_opp.
    destruct (num_ltb x v0); reflexivity.
Qed.

Lemma minimax_value_opp (h : State -> string -> Z) (n : nat) (s : State) :
  within (fun s => (h s "o"%string =? - h s "x"%string) && turn_ok s) n s
    = true ->
  minimax_value h "o" n s = num_opp (minimax_value h "x" n s).
Proof.
  revert s. induction n as [|n IH]; intros s Hw.
  - simpl in *. rewrite andb_true_r in Hw.
    apply andb_true_iff in Hw. destruct Hw as [Hh _].
    apply Z.eqb_eq in Hh. rewrite Hh. reflexivity.
  - pose proof (within_here _ _ _ Hw) as Hp.
    apply andb_true_iff in Hp. destruct Hp as [Hh Hturn].
    apply Z.eqb_eq in Hh. simpl minimax_value.
    destruct (is_terminal s) eqn:Ht; [rewrite Hh; reflexivity|].
    assert (E : map (fun m => minimax_value h "o" n (advance_state s m))
                    (get_legal_moves s) =
                map num_opp
                    (map (fun m => minimax_value h "x" n (advance_state s m))
                         (get_legal_moves s))).
    { rewrite map_map. apply map_ext_in. intros m Hm. apply IH.
      apply (within_child _ n s m Hw Ht Hm). }
    rewrite E. unfold turn_ok in Hturn. apply orb_true_iff in Hturn.
    destruct Hturn as [Ex|Eo].
    + rewrite Ex. apply String.eqb_eq in Ex. rewrite Ex. simpl String.eqb.
      apply (fold_min_opp _ NegInf).
    + rewrite Eo. apply String.eqb_eq in Eo. rewrite Eo. simpl String.eqb.
      apply (fold_max_opp _ PosInf).
Qed.

(** X14. The search is zero-sum: where the heuristic gives 'o' the opposite
    of what it gives 'x' on every state the search meets, and it is the turn
    of 'x' or of 'o' at each of them, minimax for 'o' returns the opposite of
    what minimax for 'x' returns. *)
Theorem minimax_zero_sum (fuel : nat) (s : State) (depth : Z)
    (h : State -> string -> Z) :
  0 <= depth < Z.of_nat fuel ->
  within (fun s => (h s "o"%string =? - h s "x"%string) && turn_ok s)
         (Z.to_nat depth) s = true ->
  exists node_x node_o v,
    minimax fuel (MinimaxNode_init s) depth "x" (fun s r => Ok (h s r))
      = Ok (node_x, v) /\
    minimax fuel (MinimaxNode_init s) depth "o" (fun s r => Ok (h s r))
      = Ok (node_o, num_opp v).
Proof.
  intros Hd Hw.
  exists (search_tree h "x" (Z.to_nat depth) s),
         (search_tree h "o" (Z.to_nat depth) s),
         (minimax_value h "x" (Z.to_nat depth) s).
  rewrite <- (minimax_value_opp h _ s Hw), <- !search_tree_value.
  split; apply minimax_total; exact Hd.
Qed.

End SearchAgain.

(** * The state objects of the tree *)

Module StoreObjects.

Import Store StoreFacts StoreSimulation.

Lemma rrefs_unfold (l : nat) (v : number) (d : dict RNode) :
  rrefs (mkRNode l v d) =
  flat_map (fun kc => state_ref (snd kc) :: rrefs (snd kc)) d.
Proof.
  simpl. induction d as [|[k c] d IH]; simpl; [reflexivity|].
  rewrite IH. reflexivity.
Qed.

Lemma flat_map_cons_perm {A B : Type} (f : A -> B) (g : A -> list B)
    (l : list A) :
  Permutation (map f l ++ flat_map g l) (flat_map (fun x => f x :: g x) l).
Proof.
  induction l as [|x l IH]; simpl; [constructor|].
  constructor. rewrite <- IH.
  rewrite !app_assoc. apply Permutation_app_tail.
  apply Permutation_app_comm.
Qed.

Lemma dict_set_refs_In (d : dict RNode) (m : Z) (c : RNode) (r : nat) :
  In r (map (fun kc => state_ref (snd kc)) (dict_set d m c)) ->
  r = state_ref c \/ In r (map (fun kc => state_ref (snd kc)) d).
Proof.
  induction d as [|[k x] d IH]; simpl.
  - intros [<-|[]]. left. reflexivity.
  - destruct (Z.eqb_spec k m) as [->|Hne]; simpl.
    + intros [<-|Hin]; auto.
    + intros [<-|Hin]; auto. destruct (IH Hin); auto.
Qed.

Lemma dict_set_refs (d : dict RNode) (m : Z) (c : RNode)
    (P : RNode -> Prop) :
  Forall (fun kc => P (snd kc)) d -> P c ->
  List.NoDup (map (fun kc => state_ref (snd kc)) d) ->
  ~ In (state_ref c) (map (fun kc => state_ref (snd kc)) d) ->
  Forall (fun kc => P (snd kc)) (dict_set d m c) /\
  List.NoDup (map (fun kc => state_ref (snd kc)) (dict_set d m c)).
Proof.
  intros HF Hc Hnd Hnew.
  induction d as [|[k x] d IH]; simpl.
  - split; [constructor; [exact Hc | constructor]|].
    constructor; [intros [] | constructor].
  - inversion HF as [|? ? Hx HF']; subst.
    simpl in Hnd, Hnew. inversion Hnd as [|? ? Hk Hnd']; subst.
    destruct (Z.eqb_spec k m) as [->|Hne]; simpl.
    + split.
      * constructor; [exact Hc | exact HF'].
      * constructor; [tauto | exact Hnd'].
    + destruct (IH HF' Hnd' ltac:(tauto)) as [IHF IHnd].
      split; [constructor; assumption|].
      constructor; [|exact IHnd].
      intros Hin. apply dict_set_refs_In in Hin.
      destruct Hin as [E|Hin]; [|contradiction].
      apply Hnew. left. exact E.
Qed.

Section Objects.

Context `{Rules}.

Lemma new_objects_step (st0 st : list State) (rd : dict RNode) (m : Z)
    (x : State) :
  new_objects st0 st rd ->
  new_objects st0 (st ++ [x]) (dict_set rd m (RNode_init (length st))).
Proof.
  intros (Hlen & HF & Hnd).
  destruct (dict_set_refs rd m (RNode_init (length st))
              (fun c => exists lk, c = RNode_init lk /\
                 (length st0 <= lk < length (st ++ [x]))%nat))
    as [H1 H2].
  - eapply List.Forall_impl; [|exact HF]. intros kc (lk & E & Hlk).
    exists lk. split; [exact E|]. rewrite length_app. simpl. lia.
  - exists (length st). split; [reflexivity|]. rewrite length_app. simpl. lia.
  - exact Hnd.
  - simpl. intros Hin. apply in_map_iff in Hin.
    destruct Hin as (kc & Eref & Hin).
    rewrite List.Forall_forall in HF. destruct (HF kc Hin) as (lk & E & Hlk).
    rewrite E in Eref. simpl in Eref. lia.
  - split; [rewrite length_app; simpl; lia|]. split; assumption.
Qed.

Lemma expand_at_new_objects (l : nat) (v : number) (moves : list Z)
    (st0 st st' : list State) (rd : dict RNode) (n' : RNode) :
  new_objects st0 st rd ->
  for_each moves (st, mkRNode l v rd) (fun '(st, node) move =>
    let* (st, state_cpy) := deepcopy_at st (state_ref node) in
    let* st := advance_state_at st state_cpy move in
    Ok (st, rset_successor node move (RNode_init state_cpy))) = Ok (st', n') ->
  exists rd', n' = mkRNode l v rd' /\ new_objects st0 st' rd'.
Proof.
  revert st rd. induction moves as [|m moves IH]; intros st rd Hinv.
  - simpl. intros [= <- <-]. eauto.
  - simpl for_each. destruct (st !! l) as [s|] eqn:El.
    + rewrite (expand_step st (mkRNode l v rd) m s El).
      simpl bind. unfold rset_successor. simpl.
      apply IH. apply new_objects_step. exact Hinv.
    + unfold deepcopy_at, read. simpl state_ref. rewrite El. discriminate.
Qed.

Lemma eval_list_at_objects
    (search : list State -> RNode -> result (list State * RNode * number))
    (rd : dict RNode) :
  (forall st c st' c' v, In c (map snd rd) ->
     search st c = Ok (st', c', v) -> allocates st c st' c') ->
  forall st st' rrs,
  eval_list_at search st rd = Ok (st', rrs) ->
  (length st <= length st')%nat /\
  map (fun r => state_ref (snd (fst r))) rrs
    = map (fun kc => state_ref (snd kc)) rd /\
  List.NoDup (flat_map (fun r => rrefs (snd (fst r))) rrs) /\
  Forall (fun r => (length st <= r < length st')%nat)
         (flat_map (fun r => rrefs (snd (fst r))) rrs).
Proof.
  induction rd as [|[k c] rd IH]; intros Hs st st' rrs; simpl.
  - intros [= <- <-]. simpl. repeat split; [lia | constructor | constructor].
  - destruct (search st c) as [[[st1 c'] v]|e] eqn:E1; simpl; [|discriminate].
    destruct (eval_list_at search st1 rd) as [[st2 rs']|e] eqn:E2; simpl;
      [|discriminate].
    intros [= <- <-].
    destruct (Hs st c st1 c' v ltac:(left; reflexivity) E1)
      as (Href & Hlen1 & Hnd1 & Hr1).
    destruct (IH (fun st c0 st' c0' v0 Hin => Hs st c0 st' c0' v0
                    (or_intror Hin)) st1 st2 rs' E2)
      as (Hlen2 & Hmap & Hnd2 & Hr2).
    simpl. split; [lia|]. split; [rewrite Href, Hmap; reflexivity|].
    rewrite List.Forall_forall in Hr1, Hr2. split.
    + apply List.NoDup_app; [exact Hnd1 | exact Hnd2 |].
      intros r Hin1 Hin2. specialize (Hr1 r Hin1). specialize (Hr2 r Hin2).
      lia.
    + apply Forall_app. split; apply List.Forall_forall; intros r Hr.
      * specialize (Hr1 r Hr). lia.
      * specialize (Hr2 r Hr). lia.
Qed.

Lemma minimax_at_allocates (max_role : string)
    (heuristic_fn : State -> string -> result Z) :
  forall (fuel : nat) (st : list State) (l : nat) (depth : Z)
         (st' : list State) (node' : RNode) (v : number),
  minimax_at fuel st (RNode_init l) depth max_role heuristic_fn
    = Ok (st', node', v) ->
  allocates st (RNode_init l) st' node'.
Proof.
  induction fuel as [|fuel IH]; intros st l depth st' node' v;
    [discriminate|].
  unfold RNode_init at 1. simpl minimax_at.
  destruct (st !! l) as [s|] eqn:El;
    [|unfold read; rewrite El; discriminate].
  rewrite (proj2 (read_Ok _ _ _) El). cbn [bind].
  destruct ((depth =? 0) || is_terminal s).
  - destruct (heuristic_fn s max_role); cbn [bind]; [|discriminate].
    intros [= <- <- _]. unfold rset_value. simpl.
    split; [reflexivity|]. split; [lia|]. split; constructor.
  - unfold expand_at. simpl state_ref.
    rewrite (proj2 (read_Ok _ _ _) El). cbn [bind].
    destruct (expand_at_from l (Num 0) s (get_legal_moves s) st [] [] El)
      as (e0 & rd & Hrun & HF2); [constructor|].
    rewrite Hrun. cbn [bind].
    destruct (expand_at_new_objects l (Num 0) (get_legal_moves s) st st
                (st ++ e0) [] (mkRNode l (Num 0) rd))
      as (rd' & Erd & Hlen1 & HF & Hnd); [|exact Hrun|].
    { split; [lia|]. split; constructor. }
    injection Erd as <-. clear Hrun.
    set (st1 := st ++ e0) in *.
    assert (Hkeys : List.NoDup (dict_keys rd)).
    { rewrite (fresh_in_keys _ _ _ _ HF2). apply uniq_NoDup. }
    assert (El1 : st1 !! l = Some s)
      by (apply lookup_app_l_Some; exact El).
    simpl state_ref. rewrite (proj2 (read_Ok _ _ _) El1). cbn [bind].
    assert (Hsearch : forall st0 c st0' c' v0, In c (map snd rd) ->
              minimax_at fuel st0 c (depth - 1) max_role heuristic_fn
                = Ok (st0', c', v0) -> allocates st0 c st0' c').
    { intros st0 c st0' c' v0 Hin Hrun.
      apply in_map_iff in Hin. destruct Hin as (kc & <- & Hin).
      rewrite List.Forall_forall in HF. destruct (HF kc Hin) as (lk & E & _).
      rewrite E in *. apply (IH _ _ _ _ _ _ Hrun). }
    assert (Hfinal : forall better v0 st2 n2,
              eval_successors_at
                (fun st c => minimax_at fuel st c (depth - 1) max_role
                                        heuristic_fn)
                better st1 (mkRNode l v0 rd) = Ok (st2, n2) ->
              allocates st (RNode_init l) st2 n2).
    { intros better v0 st2 n2 Hev.
      rewrite (eval_successors_at_eq _ _ l rd v0 st1 Hkeys) in Hev.
      destruct (eval_list_at _ st1 rd) as [[st2' rrs]|e] eqn:Eev;
        cbn [bind] in Hev; [|discriminate].
      injection Hev as <- <-.
      destruct (eval_list_at_objects _ rd Hsearch st1 st2' rrs Eev)
        as (Hlen2 & Hmap & Hnd2 & Hr2).
      split; [reflexivity|]. split; [lia|].
      rewrite rrefs_unfold.
      assert (Hperm : Permutation
                (map (fun kc => state_ref (snd kc)) rd
                 ++ flat_map (fun r => rrefs (snd (fst r))) rrs)
                (flat_map (fun kc => state_ref (snd kc) :: rrefs (snd kc))
                          (map fst rrs))).
      { rewrite <- Hmap.
        rewrite (flat_map_cons_perm
                   (fun r : Z * RNode * number => state_ref (snd (fst r)))
                   (fun r => rrefs (snd (fst r))) rrs).
        clear. induction rrs as [|r rrs IHr]; simpl; [constructor|].
        constructor. apply Permutation_app_head. exact IHr. }
      assert (Hrange : Forall (fun r => (length st <= r < length st1)%nat)
                         (map (fun kc => state_ref (snd kc)) rd)).
      { apply List.Forall_forall. intros r Hr. apply in_map_iff in Hr.
        destruct Hr as (kc & <- & Hin).
        rewrite List.Forall_forall in HF.
        destruct (HF kc Hin) as (lk & E & Hlk). rewrite E. simpl. exact Hlk. }
      rewrite List.Forall_forall in Hr2, Hrange.
      split.
      - apply (Permutation_NoDup Hperm).
        apply List.NoDup_app; [exact Hnd | exact Hnd2 |].
        intros r Hin1 Hin2. specialize (Hrange r Hin1).
        specialize (Hr2 r Hin2). lia.
      - apply (Permutation_Forall Hperm).
        apply Forall_app. split; apply List.Forall_forall; intros r Hr.
        + specialize (Hrange r Hr). lia.
        + specialize (Hr2 r Hr). lia. }
    change (rset_value (mkRNode l (Num 0) rd) NegInf)
      with (mkRNode l NegInf rd).
    change (rset_value (mkRNode l (Num 0) rd) PosInf)
      with (mkRNode l PosInf rd).
    destruct (String.eqb (turn s) max_role).
    + destruct (eval_successors_at _ py_max st1 _) as [[st2 n2]|e] eqn:Ev;
        cbn [bind]; [|discriminate].
      intros [= <- <- _]. exact (Hfinal _ _ _ _ Ev).
    + destruct (eval_successors_at _ py_min st1 _) as [[st2 n2]|e] eqn:Ev;
        cbn [bind]; [|discriminate].
      intros [= <- <- _]. exact (Hfinal _ _ _ _ Ev).
Qed.

(** X15. After a search from a new node, the nodes below the root refer to
    state objects that did not exist before the call and that are pairwise
    distinct: no two nodes of the tree share a state object, and none shares
    one with the caller. *)
Theorem minimax_children_own_their_states (fuel : nat) (st : list State)
    (l : nat) (depth : Z) (max_role : string)
    (heuristic_fn : State -> string -> result Z)
    (st' : list State) (node' : RNode) (v : number) :
  minimax_at fuel st (RNode_init l) depth max_role heuristic_fn
    = Ok (st', node', v) ->
  state_ref node' = l /\
  (l < length st)%nat /\
  List.NoDup (rrefs node') /\
  Forall (fun r => (length st <= r < length st')%nat) (rrefs node').
Proof.
  intros Hrun.
  destruct (minimax_at_allocates _ _ _ _ _ _ _ _ _ Hrun)
    as (Href & _ & Hnd & Hr).
  split; [exact Href|]. split; [|split; assumption].
  destruct fuel as [|fuel]; [discriminate|].
  unfold RNode_init in Hrun. simpl minimax_at in Hrun.
  destruct (st !! l) as [s|] eqn:El.
  - apply lookup_lt_Some in El. exact El.
  - unfold read in Hrun. rewrite El in Hrun. discriminate.
Qed.

End Objects.

End StoreObjects.

(** * The claims on Connect Four positions *)

Import ConnectFour.

Lemma minimax_max_min_over_children_witness :
  is_terminal initial_state = false /\
  0 < 1 <= Z.of_nat 1 /\
  exists node',
    minimax 2 (MinimaxNode_init initial_state) 1 "x"
            (fun s r => Ok (three_line_count s r)) = Ok (node', value node') /\
    dict_keys (successors node') = [0; 1; 2; 3; 4; 5; 6] /\
    is_max_of (value node') (child_values node').
Proof.
  assert (Ht : is_terminal initial_state = false) by reflexivity.
  split; [exact Ht|]. split; [lia|].
  destruct (minimax_max_min_over_children 1 initial_state 1 "x"
              three_line_count Ht ltac:(lia))
    as (node' & Hrun & _ & _ & _ & _ & Hmax & _).
  exists node'. split; [exact Hrun|]. split.
  - vm_compute in Hrun. injection Hrun as <-. reflexivity.
  - apply Hmax. vm_compute. reflexivity.
Defined.

Lemma minimax_base_case_witness :
  (is_terminal won_by_x = true \/ 3 = 0) /\
  minimax 1 (MinimaxNode_init won_by_x) 3 "x" three_line_heur =
  Ok (mkNode won_by_x (Num 100) [], Num 100).
Proof.
  assert (Ht : is_terminal won_by_x = true) by (vm_compute; reflexivity).
  split; [left; exact Ht|].
  rewrite (minimax_base_case 0 won_by_x 3 "x" three_line_heur
             (or_introl Ht)).
  vm_compute. reflexivity.
Defined.

Lemma heuristics_terminal_score_witness :
  is_terminal won_by_x = true /\
  In my_heuristic [zero_heur; three_line_heur; my_heuristic] /\
  my_heuristic won_by_x "x" = Ok 100 /\
  my_heuristic won_by_x "o" = Ok (-100).
Proof.
  assert (Ht : is_terminal won_by_x = true) by (vm_compute; reflexivity).
  split; [exact Ht|].
  assert (Hin : In my_heuristic [zero_heur; three_line_heur; my_heuristic])
    by (right; right; left; reflexivity).
  split; [exact Hin|]. split.
  - apply (heuristics_terminal_score won_by_x "x" Ht my_heuristic Hin);
      vm_compute; [discriminate | reflexivity].
  - apply (heuristics_terminal_score won_by_x "o" Ht my_heuristic Hin);
      vm_compute; discriminate.
Defined.

(** C4 as stated fails: a call with depth -1 on a position with two empty
    cells returns a value; no exception is raised. *)
Lemma negative_depth_is_not_rejected :
  ~ (forall (fuel : nat) (node : MinimaxNode) (depth : Z) (max_role : string)
            (heuristic_fn : State -> string -> result Z),
       depth < 0 ->
       exists e, minimax fuel node depth max_role heuristic_fn = Raise e).
Proof.
  intros Hclaim.
  destruct (Hclaim 3%nat (MinimaxNode_init nearly_full) (-1) "x"%string
                   zero_heur ltac:(lia)) as [e He].
  vm_compute in He. discriminate He.
Qed.

Lemma minimax_negative_depth_witness :
  -1 < 0 /\ ends_within 2 nearly_full = true /\ (2 < 3)%nat /\
  minimax 3 (MinimaxNode_init nearly_full) (-1) "x"
          (fun s r => Ok (three_line_count s r)) =
  minimax 3 (MinimaxNode_init nearly_full) 2 "x"
          (fun s r => Ok (three_line_count s r)).
Proof.
  split; [lia|]. split; [vm_compute; reflexivity|]. split; [lia|].
  apply (minimax_negative_depth 3 2 nearly_full (-1) "x" three_line_count).
  - lia.
  - vm_compute. reflexivity.
  - lia.
Defined.

Lemma play_returns_best_move_witness :
  is_terminal initial_state = false /\
  get_legal_moves initial_state <> [] /\
  1 <= 2 < Z.of_nat 3 /\
  forall entropy, exists m,
    play 3 entropy (mkPlayer "x" 2 (fun s r => Ok (three_line_count s r))
                             false) initial_state = Ok m /\
    In m (get_legal_moves initial_state).
Proof.
  assert (Ht : is_terminal initial_state = false) by reflexivity.
  split; [exact Ht|].
  assert (Hmoves : get_legal_moves initial_state <> [])
    by (vm_compute; discriminate).
  split; [exact Hmoves|]. split; [lia|].
  destruct (play_returns_best_move 3 "x" 2 three_line_count false
              initial_state Ht Hmoves ltac:(lia))
    as (root & v & _ & Hall & _).
  intros entropy. destruct (Hall entropy) as (m & c & Hplay & Hin & _).
  exists m. split; [exact Hplay | exact Hin].
Defined.

(** C6 as stated fails: the three marks of 'x' in columns 4 to 6 of the
    bottom row have no fourth cell beyond them, yet [three_line_heur] counts
    them. *)
Lemma three_line_heur_needs_no_fourth_cell :
  three_line_heur three_at_edge "x" = Ok 1 /\
  ~ (forall (s : State) (max_role : string),
       well_formed 7 6 s = true -> is_terminal s = false ->
       three_line_heur s max_role
         = Ok (three_line_count_claimed true s max_role)) /\
  ~ (forall (s : State) (max_role : string),
       well_formed 7 6 s = true -> is_terminal s = false ->
       three_line_heur s max_role
         = Ok (three_line_count_claimed false s max_role)).
Proof.
  split; [vm_compute; reflexivity|].
  assert (Hwf : well_formed 7 6 three_at_edge = true)
    by (vm_compute; reflexivity).
  assert (Ht : is_terminal three_at_edge = false)
    by (vm_compute; reflexivity).
  split; intros Hclaim;
    specialize (Hclaim three_at_edge "x"%string Hwf Ht);
    vm_compute in Hclaim; discriminate Hclaim.
Qed.

Lemma three_line_heur_signed_count_witness :
  well_formed 7 6 three_at_edge = true /\
  is_terminal three_at_edge = false /\
  three_line_heur three_at_edge "x" = Ok (three_line_count three_at_edge "x").
Proof.
  split; [vm_compute; reflexivity|]. split; [vm_compute; reflexivity|].
  apply (three_line_heur_signed_count 7 6 three_at_edge "x");
    vm_compute; reflexivity.
Defined.



Lemma zero_heur_search_is_zero_witness :
  0 <= 2 < Z.of_nat 3 /\
  within not_terminal (Z.to_nat 2) initial_state = true /\
  within can_move (Z.to_nat 2) initial_state = true /\
  exists node',
    minimax 3 (MinimaxNode_init initial_state) 2 "o" zero_heur
      = Ok (node', Num 0) /\
    all_nodes (fun n => num_eqb (value n) (Num 0)) node' = true.
Proof.
  split; [lia|].
  assert (Hnt : within not_terminal (Z.to_nat 2) initial_state = true)
    by (vm_compute; reflexivity).
  assert (Hcm : within can_move (Z.to_nat 2) initial_state = true)
    by (vm_compute; reflexivity).
  split; [exact Hnt|]. split; [exact Hcm|].
  apply (zero_heur_search_is_zero 3 initial_state 2 "o" ltac:(lia) Hnt Hcm).
Defined.

Lemma minimax_leaves_states_unchanged_witness :
  exists st' node' v,
    Store.minimax_at 3 [crowded] (Store.RNode_init 0) 2 "x" my_heuristic
      = Ok (st', node', v) /\
    Store.state_ref node' = 0%nat /\
    st' !! 0%nat = Some crowded.
Proof.
  destruct (Store.minimax_at 3 [crowded] (Store.RNode_init 0) 2 "x"
                             my_heuristic)
    as [[[st' node'] v]|e] eqn:E; [|vm_compute in E; discriminate E].
  exists st', node', v. split; [reflexivity|].
  destruct (minimax_leaves_states_unchanged _ _ _ _ _ _ _ _ _ E)
    as (Href & Hkeep & _).
  split; [exact Href|]. apply Hkeep. reflexivity.
Defined.

Lemma play_fails_without_successors_witness :
  (is_terminal won_by_x = true \/ depth (mkPlayer "o" 2 my_heuristic false) = 0)
  /\ play 1 5 (mkPlayer "o" 2 my_heuristic false) won_by_x = Raise ValueError
  /\ play 1 5 (mkPlayer "o" 0 zero_heur false) initial_state
     = Raise ValueError.
Proof.
  assert (Ht : is_terminal won_by_x = true) by (vm_compute; reflexivity).
  split; [left; exact Ht|]. split.
  - destruct (play_fails_without_successors 0 5
                (mkPlayer "o" 2 my_heuristic false) won_by_x
                (or_introl Ht)) as (Hok & _ & _).
    destruct (Hok (-100) ltac:(vm_compute; reflexivity))
      as (root & _ & _ & _ & _ & Hplay).
    exact Hplay.
  - destruct (play_fails_without_successors 0 5
                (mkPlayer "o" 0 zero_heur false) initial_state
                (or_intror eq_refl)) as (Hok & _ & _).
    destruct (Hok 0 ltac:(vm_compute; reflexivity))
      as (root & _ & _ & _ & _ & Hplay).
    exact Hplay.
Defined.

(** * The further properties on Connect Four positions *)

Lemma minimax_is_classical_minimax_witness :
  0 <= 2 < Z.of_nat 3 /\
  exists node',
    minimax 3 (MinimaxNode_init crowded) 2 "x"
            (fun s r => Ok (three_line_count s r))
    = Ok (node', minimax_value three_line_count "x" (Z.to_nat 2) crowded).
Proof.
  split; [lia|].
  apply (minimax_is_classical_minimax 3 crowded 2 "x" three_line_count).
  lia.
Defined.

Lemma minimax_depth_beyond_end_witness :
  ends_within 2 nearly_full = true /\ Z.of_nat 2 <= 5 /\ (2 < 7)%nat /\
  exists node' v,
    minimax 7 (MinimaxNode_init nearly_full) (Z.of_nat 2) "x"
            (fun s r => Ok (three_line_count s r)) = Ok (node', v) /\
    minimax 7 (MinimaxNode_init nearly_full) 5 "x"
            (fun s r => Ok (three_line_count s r)) = Ok (node', v).
Proof.
  assert (He : ends_within 2 nearly_full = true) by (vm_compute; reflexivity).
  split; [exact He|]. split; [lia|]. split; [lia|].
  apply (minimax_depth_beyond_end 7 2 nearly_full 5 "x" three_line_count He);
    lia.
Defined.

Lemma minimax_without_moves_witness :
  is_terminal no_columns = false /\
  get_legal_moves no_columns = [] /\
  depth (mkPlayer "x" 3 my_heuristic false) <> 0 /\
  minimax 1 (MinimaxNode_init no_columns) 3 "x" my_heuristic
    = Ok (mkNode no_columns NegInf [], NegInf) /\
  play 1 0 (mkPlayer "x" 3 my_heuristic false) no_columns = Raise ValueError.
Proof.
  assert (Hd : depth (mkPlayer "x" 3 my_heuristic false) <> 0)
    by (simpl; lia).
  assert (Ht : is_terminal no_columns = false) by reflexivity.
  assert (Hm : get_legal_moves no_columns = []) by (vm_compute; reflexivity).
  split; [exact Ht|]. split; [exact Hm|]. split; [exact Hd|].
  apply (minimax_without_moves 0 0 (mkPlayer "x" 3 my_heuristic false)
           no_columns Ht Hm Hd).
Defined.

Lemma minimax_value_in_heuristic_range_witness :
  0 <= 1 < Z.of_nat 2 /\
  within (fun s => true && can_move s) (Z.to_nat 1) crowded = true /\
  exists node' v,
    minimax 2 (MinimaxNode_init crowded) 1 "x" zero_heur = Ok (node', Num v)
    /\ -100 <= v <= 100.
Proof.
  split; [lia|].
  assert (Hw : within (fun s => true && can_move s) (Z.to_nat 1) crowded
               = true) by (vm_compute; reflexivity).
  split; [exact Hw|].
  destruct (minimax_value_in_heuristic_range (fun _ => true) zero_heur
              (fun s r => if is_terminal s
                          then (if String.eqb (winner s) EmptyString then 0
                                else if String.eqb (winner s) r then 100
                                     else -100)
                          else 0)
              "x" (-100) 100 2 crowded 1)
    as (node' & v & Hrun & Hv & _).
  - intros s _. split; [apply zero_heur_total|].
    destruct (is_terminal s); [|lia].
    destruct (String.eqb (winner s) EmptyString); [lia|].
    destruct (String.eqb (winner s) "x"); lia.
  - lia.
  - exact Hw.
  - exists node', v. split; [exact Hrun | exact Hv].
Defined.

Lemma minimax_again_ignores_old_tree_witness :
  exists root v,
    minimax 3 (MinimaxNode_init crowded) 2 "x" zero_heur = Ok (root, v) /\
    is_terminal crowded = false /\ 2 <> 0 /\ 1 <> 0 /\
    minimax 3 root 1 "o" my_heuristic =
    minimax 3 (MinimaxNode_init crowded) 1 "o" my_heuristic.
Proof.
  destruct (minimax 3 (MinimaxNode_init crowded) 2 "x" zero_heur)
    as [[root v]|e] eqn:E; [|vm_compute in E; discriminate E].
  assert (Ht : is_terminal crowded = false) by (vm_compute; reflexivity).
  exists root, v. split; [reflexivity|]. split; [exact Ht|].
  split; [lia|]. split; [lia|].
  apply (minimax_again_ignores_old_tree 3 3 crowded 2 1 "x" "o" zero_heur
           my_heuristic root v E Ht); lia.
Defined.

Lemma three_line_heur_zero_sum_witness :
  well_formed 7 6 crowded = true /\ marks_ok crowded = true /\
  (winner crowded = EmptyString \/ winner crowded = "x"%string
   \/ winner crowded = "o"%string) /\
  three_line_heur crowded "x" = Ok 9 /\ three_line_heur crowded "o" = Ok (-9).
Proof.
  assert (Hwf : well_formed 7 6 crowded = true) by (vm_compute; reflexivity).
  assert (Hm : marks_ok crowded = true) by (vm_compute; reflexivity).
  assert (Hw : winner crowded = EmptyString \/ winner crowded = "x"%string
               \/ winner crowded = "o"%string)
    by (left; vm_compute; reflexivity).
  split; [exact Hwf|]. split; [exact Hm|]. split; [exact Hw|].
  destruct (three_line_heur_zero_sum 7 6 crowded Hwf Hm Hw) as (z & Ex & Eo).
  assert (Ez : z = 9) by (vm_compute in Ex; injection Ex as <-; reflexivity).
  subst z. split; [exact Ex | exact Eo].
Defined.

Lemma my_heuristic_safe_and_zero_sum_witness :
  well_formed 7 6 crowded = true /\ marks_ok crowded = true /\
  is_terminal crowded = false /\ 0 <= 6 /\
  my_heuristic crowded "x" = Ok 129 /\ my_heuristic crowded "o" = Ok (-129).
Proof.
  assert (Hwf : well_formed 7 6 crowded = true) by (vm_compute; reflexivity).
  assert (Hm : marks_ok crowded = true) by (vm_compute; reflexivity).
  assert (Ht : is_terminal crowded = false) by (vm_compute; reflexivity).
  split; [exact Hwf|]. split; [exact Hm|]. split; [exact Ht|]. split; [lia|].
  destruct (my_heuristic_safe_and_zero_sum 7 6 crowded Hwf Hm Ht ltac:(lia))
    as (z & Ex & Eo & _).
  assert (Ez : z = 129) by (vm_compute in Ex; injection Ex as <-; reflexivity).
  subst z. split; [exact Ex | exact Eo].
Defined.

Lemma evaluate_position_counts_windows_witness :
  well_formed 7 6 crowded = true /\
  evaluate_position crowded 3 5 "x" =
  Ok (50 * len (List.filter (window_counts crowded 3 5 "x") eval_directions)).
Proof.
  assert (Hwf : well_formed 7 6 crowded = true) by (vm_compute; reflexivity).
  split; [exact Hwf|].
  apply (evaluate_position_counts_windows 7 6 crowded 3 5 "x" Hwf).
Defined.

Lemma play_takes_immediate_win_witness :
  In three_line_heur [zero_heur; three_line_heur] /\
  "x"%string <> EmptyString /\
  is_terminal x_to_win = false /\
  (forall m, In m (get_legal_moves x_to_win) ->
     well_formed 7 6 (advance_state x_to_win m) = true) /\
  (exists m, In m (get_legal_moves x_to_win) /\
             is_terminal (advance_state x_to_win m) = true /\
             winner (advance_state x_to_win m) = "x"%string) /\
  exists m,
    play 2 7 (mkPlayer "x" 1 three_line_heur false) x_to_win = Ok m /\
    winner (advance_state x_to_win m) = "x"%string.
Proof.
  assert (Hin : In three_line_heur [zero_heur; three_line_heur])
    by (right; left; reflexivity).
  assert (Hr : "x"%string <> EmptyString) by discriminate.
  assert (Ht : is_terminal x_to_win = false) by (vm_compute; reflexivity).
  assert (Hwf : forall m, In m (get_legal_moves x_to_win) ->
                  well_formed 7 6 (advance_state x_to_win m) = true).
  { intros m Hm. vm_compute in Hm.
    repeat (destruct Hm as [<-|Hm]; [vm_compute; reflexivity|]).
    destruct Hm. }
  assert (Hwin : exists m, In m (get_legal_moves x_to_win) /\
                   is_terminal (advance_state x_to_win m) = true /\
                   winner (advance_state x_to_win m) = "x"%string).
  { exists 3. split; [vm_compute; tauto|].
    split; vm_compute; reflexivity. }
  split; [exact Hin|]. split; [exact Hr|]. split; [exact Ht|].
  split; [exact Hwf|]. split; [exact Hwin|].
  destruct (play_takes_immediate_win 0 7 "x" three_line_heur false x_to_win
              Hin Hr Ht Hwf Hwin) as (m & Hplay & _ & _ & Hw).
  exists m. split; [exact Hplay | exact Hw].
Defined.

Lemma play_unique_best_is_deterministic_witness :
  exists root v c,
    minimax 2 (MinimaxNode_init x_to_win) 1 "x" three_line_heur
      = Ok (root, v) /\
    is_terminal x_to_win = false /\
    In 3 (get_legal_moves x_to_win) /\
    dict_get (successors root) 3 = Ok c /\
    play 2 11 (mkPlayer "x" 1 three_line_heur false) x_to_win = Ok 3.
Proof.
  destruct (minimax 2 (MinimaxNode_init x_to_win) 1 "x" three_line_heur)
    as [[root v]|e] eqn:E; [|vm_compute in E; discriminate E].
  assert (Ht : is_terminal x_to_win = false) by (vm_compute; reflexivity).
  assert (Hm : In 3 (get_legal_moves x_to_win)) by (vm_compute; tauto).
  destruct (dict_get (successors root) 3) as [c|e] eqn:Ec.
  - exists root, v, c. split; [reflexivity|]. split; [exact Ht|].
    split; [exact Hm|]. split; [exact Ec|].
    apply (play_unique_best_is_deterministic 2 11
             (mkPlayer "x" 1 three_line_heur false) x_to_win root v 3 c
             E Ht ltac:(simpl; lia) Hm Ec).
    intros m' c' Hm' Hne Ec'.
    vm_compute in E. injection E as <- <-.
    vm_compute in Ec. injection Ec as <-.
    vm_compute in Hm'.
    repeat (destruct Hm' as [<-|Hm'];
            [first [contradiction Hne; reflexivity
                   | vm_compute in Ec'; injection Ec' as <-; reflexivity]|]).
    destruct Hm'.
  - exfalso. vm_compute in E. injection E as <- <-.
    vm_compute in Ec. discriminate Ec.
Defined.

Lemma store_search_agrees_witness :
  [crowded] !! 0%nat = Some crowded /\
  exists copies rnode' node' v,
    minimax 3 (MinimaxNode_init crowded) 2 "x" my_heuristic = Ok (node', v) /\
    Store.minimax_at 3 [crowded] (Store.RNode_init 0) 2 "x" my_heuristic
      = Ok ([crowded] ++ copies, rnode', v) /\
    Store.reify ([crowded] ++ copies) rnode' = Some node'.
Proof.
  split; [reflexivity|].
  destruct (minimax 3 (MinimaxNode_init crowded) 2 "x" my_heuristic)
    as [[node' v]|e] eqn:E; [|vm_compute in E; discriminate E].
  destruct (store_search_agrees 3 [crowded] 0 crowded 2 "x" my_heuristic
              eq_refl) as [Hok _].
  destruct (Hok node' v E) as (copies & rnode' & Hrun & Hre).
  exists copies, rnode', node', v.
  split; [reflexivity|]. split; [exact Hrun | exact Hre].
Defined.

Lemma minimax_zero_sum_witness :
  0 <= 1 < Z.of_nat 2 /\
  within (fun s => (three_line_count s "o" =? - three_line_count s "x")
                   && turn_ok s) (Z.to_nat 1) crowded = true /\
  exists node_x node_o v,
    minimax 2 (MinimaxNode_init crowded) 1 "x"
            (fun s r => Ok (three_line_count s r)) = Ok (node_x, v) /\
    minimax 2 (MinimaxNode_init crowded) 1 "o"
            (fun s r => Ok (three_line_count s r)) = Ok (node_o, num_opp v).
Proof.
  split; [lia|].
  assert (Hw : within (fun s => (three_line_count s "o"
                                 =? - three_line_count s "x") && turn_ok s)
                      (Z.to_nat 1) crowded = true)
    by (vm_compute; reflexivity).
  split; [exact Hw|].
  apply (minimax_zero_sum 2 crowded 1 three_line_count ltac:(lia) Hw).
Defined.

Lemma minimax_children_own_their_states_witness :
  exists st' node' v,
    Store.minimax_at 3 [crowded] (Store.RNode_init 0) 2 "x" my_heuristic
      = Ok (st', node', v) /\
    List.NoDup (Store.rrefs node') /\
    Forall (fun r => (1 <= r < length st')%nat) (Store.rrefs node').
Proof.
  destruct (Store.minimax_at 3 [crowded] (Store.RNode_init 0) 2 "x"
                             my_heuristic)
    as [[[st' node'] v]|e] eqn:E; [|vm_compute in E; discriminate E].
  exists st', node', v. split; [reflexivity|].
  destruct (StoreObjects.minimax_children_own_their_states
              _ _ _ _ _ _ _ _ _ E) as (_ & _ & Hnd & Hr).
  split; [exact Hnd | exact Hr].
Defined.
